(** * PSA object storage of zephyr_crypto_psa_stm32: the two backends

    A shallow embedding of [crypto_wrapper/src/storage_interface.c] (the
    in-RAM slot table) and [crypto_wrapper/src/storage_interface_zfs.c]
    (the layer over Zephyr's ZMS flash log), followed by the properties of
    the four operations [storage_set], [storage_get], [storage_get_info]
    and [storage_remove].

    Conventions.
    - [uint32_t], [uint64_t] and [int] values are integers of [Z]; where
      the C code computes in [uint32_t] the wrap-around modulo [2^32] is
      written out.
    - A C buffer is a [list byte]; a pointer argument that may be [NULL]
      is an [option (list byte)].
    - [memcpy] and [memset] check their ranges against the buffers they
      are given: a copy that leaves a buffer is undefined behaviour in C
      and is the outcome [OutOfBounds] here. *)

From Stdlib Require Import ZArith Lia.
From Stdlib Require Import Strings.String Strings.Byte.
From stdpp Require Import base tactics option list gmap.

Local Open Scope Z_scope.

(** ** Status codes, outcomes and the two libc primitives *)

(** [psa_status_t], restricted to the five values the two files return. *)
Inductive psa_status_t : Type :=
| PSA_SUCCESS
| PSA_ERROR_INVALID_ARGUMENT
| PSA_ERROR_DOES_NOT_EXIST
| PSA_ERROR_INSUFFICIENT_STORAGE
| PSA_ERROR_IO_ERROR.

#[global] Instance psa_status_eq_dec : EqDecision psa_status_t.
Proof. solve_decision. Defined.

(** What a call does: it returns a status and leaves a value of type [A]
    behind (the store for [storage_set] and [storage_remove], the caller's
    buffer for [storage_get] and [storage_get_info]), or one of its copies
    runs outside a buffer. *)
Inductive outcome (A : Type) : Type :=
| Returns (st : psa_status_t) (a : A)
| OutOfBounds.

Arguments Returns {A} st a.
Arguments OutOfBounds {A}.

Definition status_of {A} (o : outcome A) : option psa_status_t :=
  match o with
  | Returns st _ => Some st
  | OutOfBounds => None
  end.

Definition UINT32_MODULUS : Z := 2 ^ 32.

(** [a + b] as C computes it on two [uint32_t] operands. *)
Definition uint32_add (a b : Z) : Z := (a + b) mod UINT32_MODULUS.

(** [memcpy(dst, src, n)]: the first [n] bytes of [dst] become the first
    [n] bytes of [src]. *)
Definition memcpy (dst src : list byte) (n : Z) : option (list byte) :=
  if (0 <=? n) && (n <=? Z.of_nat (length src)) && (n <=? Z.of_nat (length dst))
  then Some (take (Z.to_nat n) src ++ drop (Z.to_nat n) dst)
  else None.

(** [memset(dst + off, c, n)]. *)
Definition memset (dst : list byte) (off : Z) (c : byte) (n : Z) : option (list byte) :=
  if (0 <=? off) && (0 <=? n) && (off + n <=? Z.of_nat (length dst))
  then Some (take (Z.to_nat off) dst ++ replicate (Z.to_nat n) c
               ++ drop (Z.to_nat (off + n)) dst)
  else None.

(** [p + off] for a byte pointer [p]: the buffer seen from [off] on. A
    pointer outside the buffer sees nothing, so any copy of one byte or
    more from it is out of bounds. *)
Definition advance (p : list byte) (off : Z) : list byte :=
  if (0 <=? off) && (off <=? Z.of_nat (length p))
  then drop (Z.to_nat off) p
  else [].

(** ** The in-RAM table: storage_interface.c *)

Module Volatile.

Definition STORAGE_MAX_ENTRIES : Z := 8.
Definition STORAGE_MAX_ITEM_SIZE : Z := 1024.

Record storage_entry_t : Type := mk_entry {
  used : bool;
  uid : Z;
  size : Z;
  data : list byte
}.

(** [storage_table], the file's only state. *)
Abbreviation storage_table_t := (list storage_entry_t).

(** The loop condition of [find_entry]. *)
Definition entry_matches (obj_uid : Z) (e : storage_entry_t) : Prop :=
  Is_true (used e && (uid e =? obj_uid)).

Definition entry_free (e : storage_entry_t) : Prop :=
  Is_true (negb (used e)).

#[global] Instance entry_matches_dec obj_uid e : Decision (entry_matches obj_uid e).
Proof. unfold entry_matches. apply _. Defined.

#[global] Instance entry_free_dec e : Decision (entry_free e).
Proof. unfold entry_free. apply _. Defined.

(** A linear scan from index 0: the index of the first slot that
    satisfies [P], or -1. *)
Definition first_index (P : storage_entry_t -> Prop) `{!forall e, Decision (P e)}
    (tbl : storage_table_t) : Z :=
  match list_find P tbl with
  | Some (i, _) => Z.of_nat i
  | None => -1
  end.

Definition find_entry (tbl : storage_table_t) (obj_uid : Z) : Z :=
  first_index (entry_matches obj_uid) tbl.

Definition find_free_slot (tbl : storage_table_t) : Z :=
  first_index entry_free tbl.

(** The slot index [storage_set] writes to, when there is one: the slot
    that holds [obj_uid], else the first free slot. *)
Definition set_slot (tbl : storage_table_t) (obj_uid : Z) : option Z :=
  let idx := find_entry tbl obj_uid in
  if idx <? 0 then
    let idx := find_free_slot tbl in
    if idx <? 0 then None else Some idx
  else Some idx.

Definition storage_set (tbl : storage_table_t) (obj_uid obj_length : Z)
    (p_obj : option (list byte)) : outcome storage_table_t :=
  match p_obj with
  | None => Returns PSA_ERROR_INVALID_ARGUMENT tbl
  | Some src =>
    if obj_length >? STORAGE_MAX_ITEM_SIZE
    then Returns PSA_ERROR_INSUFFICIENT_STORAGE tbl
    else
      match set_slot tbl obj_uid with
      | None => Returns PSA_ERROR_INSUFFICIENT_STORAGE tbl
      | Some idx =>
        match tbl !! Z.to_nat idx with
        | None => OutOfBounds
        | Some e =>
          match memcpy (data e) src obj_length with
          | None => OutOfBounds
          | Some d =>
            let zeroed :=
              if obj_length <? STORAGE_MAX_ITEM_SIZE
              then memset d obj_length Byte.x00 (STORAGE_MAX_ITEM_SIZE - obj_length)
              else Some d in
            match zeroed with
            | None => OutOfBounds
            | Some d' =>
              Returns PSA_SUCCESS
                (<[Z.to_nat idx := mk_entry true obj_uid obj_length d']> tbl)
            end
          end
        end
      end
  end.

Definition storage_get (tbl : storage_table_t) (obj_uid obj_offset obj_length : Z)
    (p_obj : option (list byte)) : outcome (option (list byte)) :=
  match p_obj with
  | None => Returns PSA_ERROR_INVALID_ARGUMENT None
  | Some out =>
    let idx := find_entry tbl obj_uid in
    if idx <? 0 then Returns PSA_ERROR_DOES_NOT_EXIST (Some out)
    else
      match tbl !! Z.to_nat idx with
      | None => OutOfBounds
      | Some e =>
        let stored := size e in
        if obj_offset >? stored then Returns PSA_ERROR_INVALID_ARGUMENT (Some out)
        else
          let avail := stored - obj_offset in
          let to_copy := if obj_length >? avail then avail else obj_length in
          if to_copy >? 0 then
            match memcpy out (advance (data e) obj_offset) to_copy with
            | None => OutOfBounds
            | Some out' => Returns PSA_SUCCESS (Some out')
            end
          else Returns PSA_SUCCESS (Some out)
      end
  end.

Definition storage_get_info (tbl : storage_table_t) (obj_uid : Z)
    (p_obj_info : option (list byte)) (obj_info_size : Z)
    : outcome (option (list byte)) :=
  let idx := find_entry tbl obj_uid in
  if idx <? 0 then Returns PSA_ERROR_DOES_NOT_EXIST p_obj_info
  else
    match tbl !! Z.to_nat idx with
    | None => OutOfBounds
    | Some e =>
      let stored_size := size e in
      let data_ptr := data e in
      match p_obj_info with
      | None => Returns PSA_ERROR_INVALID_ARGUMENT None
      | Some info =>
        if obj_info_size >? stored_size
        then Returns PSA_ERROR_INVALID_ARGUMENT (Some info)
        else
          match memcpy info data_ptr obj_info_size with
          | None => OutOfBounds
          | Some info' => Returns PSA_SUCCESS (Some info')
          end
      end
    end.

(** [memset(&storage_table[idx], 0, sizeof(storage_table[idx]))]. *)
Definition cleared_entry : storage_entry_t :=
  mk_entry false 0 0 (replicate (Z.to_nat STORAGE_MAX_ITEM_SIZE) Byte.x00).

Definition storage_remove (tbl : storage_table_t) (obj_uid obj_size : Z)
    : outcome storage_table_t :=
  let idx := find_entry tbl obj_uid in
  if idx <? 0 then Returns PSA_ERROR_DOES_NOT_EXIST tbl
  else Returns PSA_SUCCESS (<[Z.to_nat idx := cleared_entry]> tbl).

(** The table [storage_init] leaves: every slot free, its data 0xFF. *)
Definition storage_init : storage_table_t :=
  replicate (Z.to_nat STORAGE_MAX_ENTRIES)
    (mk_entry false 0 0 (replicate (Z.to_nat STORAGE_MAX_ITEM_SIZE) Byte.xff)).

(** *** Vocabulary for the statements about the table *)

(** Some slot in use holds [obj_uid]. *)
Definition stored (tbl : storage_table_t) (obj_uid : Z) : Prop :=
  exists i e, tbl !! i = Some e /\ used e = true /\ uid e = obj_uid.

(** Every slot is in use. *)
Definition full (tbl : storage_table_t) : Prop :=
  forall i e, tbl !! i = Some e -> used e = true.

(** The data region of a slot after a successful [storage_set] of the
    first [len] bytes of [src]. *)
Definition slot_image (src : list byte) (len : Z) : list byte :=
  take (Z.to_nat len) src
    ++ replicate (Z.to_nat (STORAGE_MAX_ITEM_SIZE - len)) Byte.x00.

(** The object a slot holds: the first [size] bytes of its data. *)
Definition payload (e : storage_entry_t) : list byte :=
  take (Z.to_nat (size e)) (data e).

(** What every table the program can build satisfies. *)
Record table_inv (tbl : storage_table_t) : Prop := mk_table_inv {
  inv_length : Z.of_nat (length tbl) = STORAGE_MAX_ENTRIES;
  inv_data : forall i e, tbl !! i = Some e ->
    Z.of_nat (length (data e)) = STORAGE_MAX_ITEM_SIZE;
  inv_size : forall i e, tbl !! i = Some e ->
    0 <= size e <= STORAGE_MAX_ITEM_SIZE;
  inv_unique : forall i j ei ej,
    tbl !! i = Some ei -> tbl !! j = Some ej ->
    used ei = true -> used ej = true -> uid ei = uid ej -> i = j
}.

(** [history written tbl]: the table [tbl] is what [storage_init]
    followed by some sequence of returning [storage_set] and
    [storage_remove] calls leaves; [written] lists the uids those
    [storage_set] calls were given. *)
Inductive history : list Z -> storage_table_t -> Prop :=
| history_init : history [] storage_init
| history_set written tbl obj_uid obj_length p_obj st tbl' :
    history written tbl ->
    storage_set tbl obj_uid obj_length p_obj = Returns st tbl' ->
    history (obj_uid :: written) tbl'
| history_remove written tbl obj_uid obj_size st tbl' :
    history written tbl ->
    storage_remove tbl obj_uid obj_size = Returns st tbl' ->
    history written tbl'.

End Volatile.

(** ** The layer over the ZMS flash log: storage_interface_zfs.c *)

Module Zfs.

Definition STORAGE_MAX_ITEM_SIZE : Z := 1024.

(** [sizeof(buf)] for the local [uint8_t buf[128]] of [storage_get]. *)
Definition SIZEOF_BUF : Z := 128.

(** The three ZMS calls the file makes, as an interface over the state
    [FS] of the mounted file system ([static struct zms_fs fs]). They
    belong to Zephyr, not to this repository, so the layer is modelled
    over any implementation of them.
    - [zms_write fs id data len] is the returned count (negative: an
      errno) and the file system after the call;
    - [zms_read fs id buf len] is the returned count and the buffer
      after the call; a read leaves the file system as it is;
    - [zms_delete fs id] is the returned code and the file system after
      the call. *)
Class ZmsDriver (FS : Type) : Type := {
  zms_write : FS -> Z -> list byte -> Z -> Z * FS;
  zms_read : FS -> Z -> list byte -> Z -> Z * list byte;
  zms_delete : FS -> Z -> Z * FS
}.

Section Layer.

Context {FS : Type} `{!ZmsDriver FS}.

(** [sizeof(its_obj_info_t)]; the type is declared in
    [storage_interface.h], which is not part of the sources at hand. *)
Variable sizeof_its_obj_info_t : Z.

(** What the 128 bytes of [buf] hold when [storage_get] is entered: the
    array is not initialised. *)
Variable stack_buf : list byte.

Definition storage_set (fs : FS) (obj_uid obj_length : Z)
    (p_obj : option (list byte)) : outcome FS :=
  match p_obj with
  | None => Returns PSA_ERROR_INVALID_ARGUMENT fs
  | Some src =>
    if obj_length >? STORAGE_MAX_ITEM_SIZE
    then Returns PSA_ERROR_INSUFFICIENT_STORAGE fs
    else
      let '(rc, fs') := zms_write fs obj_uid src obj_length in
      if rc <? 0 then Returns PSA_ERROR_IO_ERROR fs'
      else if rc <? obj_length then Returns PSA_ERROR_IO_ERROR fs'
      else Returns PSA_SUCCESS fs'
  end.

(** The window check of [storage_get]: the sum is a [uint32_t]. *)
Definition window_too_large (obj_offset obj_length : Z) : bool :=
  uint32_add obj_offset obj_length >? SIZEOF_BUF.

(** The bytes [memcpy] reads in [storage_get]:
    [p_obj_temp + obj_offset] with [p_obj_temp = buf + sizeof(its_obj_info_t)]. *)
Definition copy_source (buf : list byte) (obj_offset : Z) : list byte :=
  let p_obj_temp := advance buf sizeof_its_obj_info_t in
  advance p_obj_temp obj_offset.

Definition storage_get (fs : FS) (obj_uid obj_offset obj_length : Z)
    (p_obj : option (list byte)) : outcome (option (list byte)) :=
  match p_obj with
  | None => Returns PSA_ERROR_INVALID_ARGUMENT None
  | Some out =>
    if window_too_large obj_offset obj_length
    then Returns PSA_ERROR_INVALID_ARGUMENT (Some out)
    else
      let '(rc, buf) := zms_read fs obj_uid stack_buf SIZEOF_BUF in
      if rc <? 0 then Returns PSA_ERROR_IO_ERROR (Some out)
      else if rc <? uint32_add obj_offset obj_length
      then Returns PSA_ERROR_IO_ERROR (Some out)
      else
        match memcpy out (copy_source buf obj_offset) obj_length with
        | None => OutOfBounds
        | Some out' => Returns PSA_SUCCESS (Some out')
        end
  end.

Definition storage_get_info (fs : FS) (obj_uid : Z)
    (p_obj_info : option (list byte)) (obj_info_size : Z)
    : outcome (option (list byte)) :=
  match p_obj_info with
  | None => Returns PSA_ERROR_INVALID_ARGUMENT None
  | Some info =>
    let '(rc, info') := zms_read fs obj_uid info obj_info_size in
    if rc <? 0 then Returns PSA_ERROR_IO_ERROR (Some info')
    else if rc <? obj_info_size then Returns PSA_ERROR_IO_ERROR (Some info')
    else Returns PSA_SUCCESS (Some info')
  end.

Definition storage_remove (fs : FS) (obj_uid obj_size : Z) : outcome FS :=
  let '(rc, fs') := zms_delete fs obj_uid in
  if rc <? 0 then Returns PSA_ERROR_IO_ERROR fs'
  else Returns PSA_SUCCESS fs'.

End Layer.

(** *** Vocabulary for the statements about the layer *)

(** A driver that keeps what it was given: once a write of [len] bytes
    reported [len] bytes or more, a read of the same key into a buffer
    of [n] bytes or more reports [min n len] and puts that many bytes
    of the written data at the start of the buffer. *)
Definition keeps_records (FS : Type) `{!ZmsDriver FS} : Prop :=
  forall (fs fs' : FS) (id : Z) (src : list byte) (len rc : Z),
    zms_write fs id src len = (rc, fs') ->
    0 <= len <= Z.of_nat (length src) -> len <= rc ->
    forall (buf : list byte) (n : Z),
      0 <= n <= Z.of_nat (length buf) ->
      zms_read fs' id buf n =
        (Z.min n len,
         take (Z.to_nat (Z.min n len)) src ++ drop (Z.to_nat (Z.min n len)) buf).

(** A driver whose write changes nothing unless it writes everything. *)
Definition writes_all_or_nothing (FS : Type) `{!ZmsDriver FS} : Prop :=
  forall (fs fs' : FS) (id : Z) (src : list byte) (len rc : Z),
    zms_write fs id src len = (rc, fs') -> rc < 0 \/ rc < len -> fs' = fs.

End Zfs.

(** ** A reference flash log *)

Module RefLog.

(** Modelled from the spec: the backing log (Zephyr's ZMS driver, an
    external collaborator whose code is not in this repository), "a
    black-box log-structured store offering write/read/delete ... by
    numeric key": "keyed write(key, bytes) -> bytes-written-or-error;
    keyed read(key, buffer) -> bytes-read-or-error; keyed delete(key) ->
    status". The log keeps one record per key and has [room] bytes of
    flash left: a write with no room left reports an error, a write
    that does not fit "writes fewer bytes than requested". It serves as
    the concrete driver at which the general statements are evaluated. *)
Record log : Type := mk_log {
  records : gmap Z (list byte);
  room : Z
}.

Definition ENOENT : Z := 2.
Definition ENOSPC : Z := 28.

Definition write (fs : log) (id : Z) (bytes : list byte) (len : Z) : Z * log :=
  if (room fs <=? 0) && (0 <? len) then (- ENOSPC, fs)
  else
    let n := Z.min len (room fs) in
    (n, mk_log (<[id := take (Z.to_nat n) bytes]> (records fs)) (room fs - n)).

Definition read (fs : log) (id : Z) (buf : list byte) (len : Z) : Z * list byte :=
  match records fs !! id with
  | None => (- ENOENT, buf)
  | Some rec =>
    let n := Z.min len (Z.of_nat (length rec)) in
    (n, take (Z.to_nat n) rec ++ drop (Z.to_nat n) buf)
  end.

(** Deleting a key that holds no record changes nothing and reports 0. *)
Definition delete (fs : log) (id : Z) : Z * log :=
  (0, mk_log (base.delete id (records fs)) (room fs)).

#[global] Instance driver : Zfs.ZmsDriver log := {
  Zfs.zms_write := write;
  Zfs.zms_read := read;
  Zfs.zms_delete := delete
}.

(** A freshly mounted, empty log with [n] bytes of room. *)
Definition empty (n : Z) : log := mk_log ∅ n.

End RefLog.

(** ** The rest of storage_interface_zfs.c *)

Module ZfsMaintenance.

(** [zms_get_data_length], the fourth ZMS call of the file: the length
    of the record under [id], or a negative errno. It reads the file
    system and leaves it as it is. *)
Class ZmsLength (FS : Type) : Type := {
  zms_get_data_length : FS -> Z -> Z
}.

Section Items.

Context {FS : Type} `{!Zfs.ZmsDriver FS} `{!ZmsLength FS}.

(** [delete_and_verify_items]: the value returned (0, the code of
    [zms_delete] at [error1], -1 at [error2]) and the file system
    after the call. *)
Definition delete_and_verify_items (fs : FS) (id : Z) : Z * FS :=
  let '(rc, fs') := Zfs.zms_delete fs id in
  if negb (rc =? 0) then (rc, fs')
  else
    let rc := zms_get_data_length fs' id in
    if rc >? 0 then (-1, fs') else (0, fs').

(** A driver that reads no bytes of a key whose length query reports
    no data. *)
Definition reads_nothing_without_data : Prop :=
  forall (fs : FS) (id : Z) (buf : list byte) (n : Z),
    zms_get_data_length fs id <= 0 -> fst (Zfs.zms_read fs id buf n) <= 0.

End Items.

End ZfsMaintenance.

Module ZfsStartup.

Definition ENOSPC : Z := 28.
Definition EIO : Z := 5.

(** The fields of [struct zms_fs] that [storage_init] assigns. *)
Record zms_fs : Type := mk_zms_fs {
  flash_device : Z;
  offset : Z;
  sector_size : Z;
  sector_count : Z
}.

(** The board as [storage_init] sees it: the device and offset of
    [storage_partition], and the three calls it makes.
    [flash_get_page_info_by_offs dev offs] is the returned code and the
    [size] field it leaves in [info]; [zms_mount fs] is the returned
    code. *)
Class Board : Type := {
  ZMS_PARTITION_DEVICE : Z;
  ZMS_PARTITION_OFFSET : Z;
  device_is_ready : Z -> bool;
  flash_get_page_info_by_offs : Z -> Z -> Z * Z;
  zms_mount : zms_fs -> Z
}.

Section Init.

Context `{!Board}.

(** [storage_init] of storage_interface_zfs.c on the static [fs]: the
    value returned and [fs] after the call. *)
Definition storage_init (fs : zms_fs) : Z * zms_fs :=
  let fs := mk_zms_fs ZMS_PARTITION_DEVICE (offset fs) (sector_size fs)
              (sector_count fs) in
  if negb (device_is_ready (flash_device fs)) then (- ENOSPC, fs)
  else
    let fs := mk_zms_fs (flash_device fs) ZMS_PARTITION_OFFSET
                (sector_size fs) (sector_count fs) in
    let '(rc, info_size) :=
      flash_get_page_info_by_offs (flash_device fs) (offset fs) in
    if negb (rc =? 0) then (- EIO, fs)
    else
      let fs := mk_zms_fs (flash_device fs) (offset fs) info_size 4 in
      let rc := zms_mount fs in
      if negb (rc =? 0) then (- EIO, fs) else (0, fs).

End Init.

(** [fs] before [storage_init] runs: a static object, all zero. *)
Definition fs_unset : zms_fs := mk_zms_fs 0 0 0 0.

End ZfsStartup.

(** ** The table seen as a finite map *)

(** Some slot in use holds [obj_uid] with the object [bytes]. *)
Definition holds (tbl : Volatile.storage_table_t) (obj_uid : Z)
    (bytes : list byte) : Prop :=
  exists i e, tbl !! i = Some e /\ Volatile.used e = true
    /\ Volatile.uid e = obj_uid /\ Volatile.payload e = bytes.

(** The map [m] lists exactly the objects the table holds. *)
Definition represents (tbl : Volatile.storage_table_t)
    (m : gmap Z (list byte)) : Prop :=
  forall obj_uid bytes, m !! obj_uid = Some bytes <-> holds tbl obj_uid bytes.

(** ** Counting the slots in use *)

(** The number of slots of the table whose [used] flag is set. *)
Definition slots_in_use (tbl : Volatile.storage_table_t) : Z :=
  Z.of_nat (length (filter (fun e => Volatile.used e = true) tbl)).

(** What one slot adds to the count. *)
Definition slot_weight (e : Volatile.storage_entry_t) : Z :=
  if Volatile.used e then 1 else 0.

(** The length query of the reference log. *)
#[global] Instance reflog_length : ZfsMaintenance.ZmsLength RefLog.log := {
  ZfsMaintenance.zms_get_data_length fs id :=
    match RefLog.records fs !! id with
    | Some rec => Z.of_nat (length rec)
    | None => - RefLog.ENOENT
    end
}.

(** A board that is ready, has 2048-byte pages and mounts any file
    system of 4 sectors. *)
Definition board_ready : ZfsStartup.Board := {|
  ZfsStartup.ZMS_PARTITION_DEVICE := 1;
  ZfsStartup.ZMS_PARTITION_OFFSET := 1032192;
  ZfsStartup.device_is_ready := fun dev => dev =? 1;
  ZfsStartup.flash_get_page_info_by_offs := fun dev offs => (0, 2048);
  ZfsStartup.zms_mount := fun fs =>
    if ZfsStartup.sector_count fs =? 4 then 0 else -22
|}.

(** ** Byte strings of the examples *)

Definition bytes_of (s : string) : list byte := list_byte_of_string s.

(** The [uint32_t] a little-endian target reads from four bytes. *)
Definition uint32_le (bs : list byte) : Z :=
  match bs with
  | [b0; b1; b2; b3] =>
    Z.of_N (Byte.to_N b0) + 2 ^ 8 * Z.of_N (Byte.to_N b1)
      + 2 ^ 16 * Z.of_N (Byte.to_N b2) + 2 ^ 24 * Z.of_N (Byte.to_N b3)
  | _ => -1
  end.

(** The values the examples are run on. *)
Definition digits : list byte := bytes_of "0123456789".
Definition letters : list byte := bytes_of "abc".

(** A pattern for the bytes of a buffer nobody has written yet. *)
Definition blank (n : nat) : list byte := replicate n Byte.xaa.

(** The table after [storage_set(0xA, 10, "0123456789")] on the initial
    table. *)
Definition table_digits : Volatile.storage_table_t :=
  <[0%nat := Volatile.mk_entry true 10 10 (Volatile.slot_image digits 10)]>
    Volatile.storage_init.

(** A table with every slot in use: uids 1 to 8, each an empty object. *)
Definition table_eight : Volatile.storage_table_t :=
  map (fun k => Volatile.mk_entry true k 0 (Volatile.slot_image [] 0))
    [1; 2; 3; 4; 5; 6; 7; 8].

(** A log with room to spare that holds "0123456789" under key 0xA. *)
Definition log_digits : RefLog.log :=
  RefLog.mk_log {[10 := digits]} 4086.

(** The table after [storage_set(0xA, 3, "abc")] on [table_digits]. *)
Definition table_letters : Volatile.storage_table_t :=
  <[0%nat := Volatile.mk_entry true 10 3 (Volatile.slot_image letters 3)]>
    Volatile.storage_init.

(** A log that holds a record of 128 bytes under key 0xA. *)
Definition log_block : RefLog.log :=
  RefLog.mk_log {[10 := replicate 128 Byte.x5a]} 3968.

(** A log that holds "abc" under key 0xA and has two bytes of room
    left. *)
Definition log_letters_tight : RefLog.log :=
  RefLog.mk_log {[10 := letters]} 2.

(** * Properties *)

(** ** The libc primitives *)

Section Primitives.

Lemma gtb_false n m : n <= m -> (n >? m) = false.
Proof. intros H. rewrite Z.gtb_ltb. apply Z.ltb_ge. exact H. Qed.

Lemma gtb_true n m : m < n -> (n >? m) = true.
Proof. intros H. rewrite Z.gtb_ltb. apply Z.ltb_lt. exact H. Qed.

Lemma gtb_false_inv n m : (n >? m) = false -> n <= m.
Proof. rewrite Z.gtb_ltb. apply Z.ltb_ge. Qed.

Lemma gtb_true_inv n m : (n >? m) = true -> m < n.
Proof. rewrite Z.gtb_ltb. apply Z.ltb_lt. Qed.

Lemma ltb_false n m : m <= n -> (n <? m) = false.
Proof. apply Z.ltb_ge. Qed.

Lemma memcpy_Some dst src n :
  0 <= n -> n <= Z.of_nat (length src) -> n <= Z.of_nat (length dst) ->
  memcpy dst src n = Some (take (Z.to_nat n) src ++ drop (Z.to_nat n) dst).
Proof.
  intros H0 Hs Hd. unfold memcpy.
  rewrite (proj2 (Z.leb_le 0 n) H0), (proj2 (Z.leb_le _ _) Hs),
    (proj2 (Z.leb_le _ _) Hd). reflexivity.
Qed.

Lemma memcpy_inv dst src n d :
  memcpy dst src n = Some d ->
  0 <= n /\ n <= Z.of_nat (length src) /\ n <= Z.of_nat (length dst)
  /\ d = take (Z.to_nat n) src ++ drop (Z.to_nat n) dst.
Proof.
  unfold memcpy. intros H.
  destruct (0 <=? n) eqn:E0; [|discriminate].
  destruct (n <=? Z.of_nat (length src)) eqn:Es; [|discriminate].
  destruct (n <=? Z.of_nat (length dst)) eqn:Ed; [|discriminate].
  simpl in H. injection H as <-.
  apply Z.leb_le in E0, Es, Ed. auto.
Qed.

Lemma memcpy_None dst src n :
  Z.of_nat (length src) < n -> memcpy dst src n = None.
Proof.
  intros Hshort. unfold memcpy.
  rewrite (proj2 (Z.leb_gt n (Z.of_nat (length src)))) by exact Hshort.
  rewrite andb_false_r. reflexivity.
Qed.

Lemma memset_Some dst off c n :
  0 <= off -> 0 <= n -> off + n <= Z.of_nat (length dst) ->
  memset dst off c n =
    Some (take (Z.to_nat off) dst ++ replicate (Z.to_nat n) c
            ++ drop (Z.to_nat (off + n)) dst).
Proof.
  intros H0 Hn Hd. unfold memset.
  rewrite (proj2 (Z.leb_le 0 off) H0), (proj2 (Z.leb_le 0 n) Hn),
    (proj2 (Z.leb_le _ _) Hd). reflexivity.
Qed.

Lemma advance_in_range p off :
  0 <= off <= Z.of_nat (length p) -> advance p off = drop (Z.to_nat off) p.
Proof.
  intros [H0 H1]. unfold advance.
  rewrite (proj2 (Z.leb_le 0 off) H0), (proj2 (Z.leb_le _ _) H1). reflexivity.
Qed.

Lemma advance_zero p : advance p 0 = p.
Proof. rewrite advance_in_range; [reflexivity | lia]. Qed.

Lemma advance_length p off : (length (advance p off) <= length p)%nat.
Proof.
  unfold advance. destruct (_ && _); [rewrite length_drop | simpl]; lia.
Qed.

End Primitives.

(** ** The slot table: searching *)

Section TableSearch.

Import Volatile.

Implicit Types (tbl : storage_table_t) (e : storage_entry_t).

Lemma entry_matches_iff obj_uid e :
  entry_matches obj_uid e <-> used e = true /\ uid e = obj_uid.
Proof.
  unfold entry_matches. rewrite andb_True, !Is_true_true, Z.eqb_eq. reflexivity.
Qed.

Lemma entry_free_iff e : entry_free e <-> used e = false.
Proof.
  unfold entry_free. rewrite Is_true_true, negb_true_iff. reflexivity.
Qed.

(** The scan answers -1, or the first index whose slot satisfies [P]. *)
Lemma first_index_cases (P : storage_entry_t -> Prop)
    `{!forall e, Decision (P e)} tbl :
  (first_index P tbl = -1 /\ forall i e, tbl !! i = Some e -> ~ P e)
  \/ (exists i e, first_index P tbl = Z.of_nat i /\ tbl !! i = Some e /\ P e
        /\ forall j y, tbl !! j = Some y -> (j < i)%nat -> ~ P y).
Proof.
  unfold first_index. destruct (list_find P tbl) as [[i e]|] eqn:E.
  - right. apply list_find_Some in E as (Hi & HP & Hfirst). eauto 8.
  - left. split; [reflexivity|]. apply list_find_None in E.
    intros i e Hi. rewrite Forall_lookup in E. eauto.
Qed.

Lemma first_index_at (P : storage_entry_t -> Prop)
    `{!forall e, Decision (P e)} tbl i e :
  tbl !! i = Some e -> P e ->
  (forall j y, tbl !! j = Some y -> (j < i)%nat -> ~ P y) ->
  first_index P tbl = Z.of_nat i.
Proof.
  intros Hi HP Hfirst. unfold first_index.
  assert (list_find P tbl = Some (i, e)) as ->; [|reflexivity].
  apply list_find_Some. auto.
Qed.

Lemma first_index_none (P : storage_entry_t -> Prop)
    `{!forall e, Decision (P e)} tbl :
  (forall i e, tbl !! i = Some e -> ~ P e) -> first_index P tbl = -1.
Proof.
  intros Hall. unfold first_index.
  assert (list_find P tbl = None) as ->; [|reflexivity].
  apply list_find_None, Forall_lookup. exact Hall.
Qed.

Lemma find_entry_absent tbl obj_uid :
  ~ stored tbl obj_uid -> find_entry tbl obj_uid = -1.
Proof.
  intros Hno. apply first_index_none. intros i e Hi Hm.
  apply entry_matches_iff in Hm as [Hu Hid]. apply Hno. exists i, e. auto.
Qed.

Lemma find_entry_absent_inv tbl obj_uid :
  find_entry tbl obj_uid < 0 -> ~ stored tbl obj_uid.
Proof.
  intros Hneg (i & e & Hi & Hu & Hid). unfold find_entry in Hneg.
  destruct (first_index_cases (entry_matches obj_uid) tbl)
    as [[_ Hnone] | (k & y & Hk & _)]; [|lia].
  apply (Hnone i e Hi). apply entry_matches_iff. auto.
Qed.

Lemma find_entry_present tbl obj_uid :
  stored tbl obj_uid ->
  exists i e, find_entry tbl obj_uid = Z.of_nat i /\ tbl !! i = Some e
    /\ used e = true /\ uid e = obj_uid.
Proof.
  intros (i & e & Hi & Hu & Hid). unfold find_entry.
  destruct (first_index_cases (entry_matches obj_uid) tbl)
    as [[_ Hnone] | (k & y & Hk & Hky & Hm & _)].
  - exfalso. apply (Hnone i e Hi). apply entry_matches_iff. auto.
  - apply entry_matches_iff in Hm as [? ?]. eauto 8.
Qed.

(** With one slot per uid, the scan finds the slot that holds the uid. *)
Lemma find_entry_unique tbl obj_uid i e :
  table_inv tbl -> tbl !! i = Some e -> used e = true -> uid e = obj_uid ->
  find_entry tbl obj_uid = Z.of_nat i.
Proof.
  intros Hinv Hi Hu Hid.
  destruct (find_entry_present tbl obj_uid) as (k & y & Hk & Hky & Hyu & Hyid).
  { exists i, e. auto. }
  rewrite Hk. f_equal. apply (inv_unique tbl Hinv k i y e); congruence.
Qed.

(** The slot [storage_set] picks: the one that holds the uid, or, for a
    uid that is not stored, the first free one. *)
Lemma set_slot_cases tbl obj_uid :
  (set_slot tbl obj_uid = None /\ ~ stored tbl obj_uid /\ full tbl)
  \/ (exists i e, set_slot tbl obj_uid = Some (Z.of_nat i) /\ tbl !! i = Some e
        /\ ((used e = true /\ uid e = obj_uid)
            \/ (used e = false /\ ~ stored tbl obj_uid))
        /\ forall j y, tbl !! j = Some y -> (j < i)%nat ->
             ~ entry_matches obj_uid y).
Proof.
  unfold set_slot, find_entry, find_free_slot.
  destruct (first_index_cases (entry_matches obj_uid) tbl)
    as [[-> Hnone] | (i & e & -> & Hi & Hm & Hfirst)].
  - assert (~ stored tbl obj_uid) as Hno.
    { intros (i & e & Hi & Hu & Hid). apply (Hnone i e Hi).
      apply entry_matches_iff. auto. }
    simpl. destruct (first_index_cases entry_free tbl)
      as [[-> Hnofree] | (i & e & -> & Hi & Hfree & _)].
    + left. simpl. repeat split; [exact Hno|]. intros i e Hi.
      destruct (used e) eqn:Hu; [reflexivity|].
      exfalso. apply (Hnofree i e Hi). apply entry_free_iff. exact Hu.
    + right. exists i, e. apply entry_free_iff in Hfree.
      rewrite (ltb_false (Z.of_nat i) 0) by lia.
      repeat split; eauto.
  - right. exists i, e. apply entry_matches_iff in Hm.
    rewrite (ltb_false (Z.of_nat i) 0) by lia.
    repeat split; eauto.
Qed.

End TableSearch.

(** ** The slot table: what the four operations do *)

Section TableOperations.

Import Volatile.

Implicit Types (tbl : storage_table_t) (e : storage_entry_t).

Lemma slot_image_length src len :
  0 <= len <= STORAGE_MAX_ITEM_SIZE -> len <= Z.of_nat (length src) ->
  Z.of_nat (length (slot_image src len)) = STORAGE_MAX_ITEM_SIZE.
Proof.
  intros Hlen Hsrc. unfold slot_image.
  rewrite length_app, length_take, length_replicate. lia.
Qed.

(** The prefix of the slot data that holds the object is the object. *)
Lemma slot_image_take src len n :
  0 <= n <= len -> len <= Z.of_nat (length src) ->
  take (Z.to_nat n) (slot_image src len) = take (Z.to_nat n) src.
Proof.
  intros Hn Hsrc. unfold slot_image.
  rewrite take_app_le by (rewrite length_take; lia).
  rewrite take_take. f_equal. lia.
Qed.

(** The two writes of [storage_set] into a slot's data: the copy, then
    the zero fill of the rest. *)
Lemma set_writes_slot_image (d0 src : list byte) len :
  Z.of_nat (length d0) = STORAGE_MAX_ITEM_SIZE ->
  0 <= len <= STORAGE_MAX_ITEM_SIZE -> len <= Z.of_nat (length src) ->
  exists d, memcpy d0 src len = Some d
    /\ (if len <? STORAGE_MAX_ITEM_SIZE
        then memset d len Byte.x00 (STORAGE_MAX_ITEM_SIZE - len)
        else Some d) = Some (slot_image src len).
Proof.
  intros Hd0 Hlen Hsrc. eexists. split.
  { apply memcpy_Some; lia. }
  set (d := take (Z.to_nat len) src ++ drop (Z.to_nat len) d0).
  assert (length (take (Z.to_nat len) src) = Z.to_nat len) as Htake
    by (rewrite length_take; lia).
  assert (Z.of_nat (length d) = STORAGE_MAX_ITEM_SIZE) as Hd.
  { unfold d. rewrite length_app, Htake, length_drop. lia. }
  destruct (len <? STORAGE_MAX_ITEM_SIZE) eqn:E.
  - rewrite memset_Some by lia. f_equal. unfold slot_image.
    replace (len + (STORAGE_MAX_ITEM_SIZE - len)) with STORAGE_MAX_ITEM_SIZE by lia.
    rewrite (drop_ge d) by lia. rewrite app_nil_r. f_equal.
    unfold d. rewrite take_app_length'; [reflexivity | symmetry; exact Htake].
  - apply Z.ltb_ge in E. assert (len = STORAGE_MAX_ITEM_SIZE) as -> by lia.
    f_equal. unfold d, slot_image.
    rewrite (drop_ge d0) by lia. rewrite Z.sub_diag. reflexivity.
Qed.

Lemma storage_set_ok tbl obj_uid obj_length src i e :
  set_slot tbl obj_uid = Some (Z.of_nat i) -> tbl !! i = Some e ->
  Z.of_nat (length (data e)) = STORAGE_MAX_ITEM_SIZE ->
  0 <= obj_length <= STORAGE_MAX_ITEM_SIZE ->
  obj_length <= Z.of_nat (length src) ->
  storage_set tbl obj_uid obj_length (Some src) =
    Returns PSA_SUCCESS
      (<[i := mk_entry true obj_uid obj_length (slot_image src obj_length)]> tbl).
Proof.
  intros Hslot Hi Hdata Hlen Hsrc. unfold storage_set.
  rewrite gtb_false by lia.
  rewrite Hslot, Nat2Z.id, Hi.
  destruct (set_writes_slot_image (data e) src obj_length) as (d & -> & ->);
    auto.
Qed.

(** A [storage_set] that returns an error returns the table it was
    given. *)
Lemma storage_set_error tbl obj_uid obj_length p_obj st tbl' :
  storage_set tbl obj_uid obj_length p_obj = Returns st tbl' ->
  st <> PSA_SUCCESS -> tbl' = tbl.
Proof.
  unfold storage_set. intros H Hst.
  destruct p_obj as [src|]; [|congruence].
  destruct (obj_length >? STORAGE_MAX_ITEM_SIZE); [congruence|].
  destruct (set_slot tbl obj_uid) as [idx|]; [|congruence].
  destruct (tbl !! Z.to_nat idx) as [e|]; [|discriminate].
  destruct (memcpy (data e) src obj_length) as [d|]; [|discriminate].
  destruct (if obj_length <? STORAGE_MAX_ITEM_SIZE then _ else _);
    [|discriminate].
  congruence.
Qed.

(** A successful [storage_set] had a buffer and a slot, and left the
    slot holding the object. *)
Lemma storage_set_success tbl obj_uid obj_length p_obj tbl' :
  table_inv tbl ->
  storage_set tbl obj_uid obj_length p_obj = Returns PSA_SUCCESS tbl' ->
  exists src i e,
    p_obj = Some src /\ set_slot tbl obj_uid = Some (Z.of_nat i)
    /\ tbl !! i = Some e
    /\ 0 <= obj_length <= STORAGE_MAX_ITEM_SIZE
    /\ obj_length <= Z.of_nat (length src)
    /\ tbl' = <[i := mk_entry true obj_uid obj_length
                       (slot_image src obj_length)]> tbl.
Proof.
  intros Hinv H.
  destruct p_obj as [src|]; [|discriminate].
  assert (0 <= obj_length <= STORAGE_MAX_ITEM_SIZE
          /\ obj_length <= Z.of_nat (length src)) as [Hlen Hsrc].
  { unfold storage_set in H.
    destruct (obj_length >? STORAGE_MAX_ITEM_SIZE) eqn:Egt; [discriminate|].
    apply gtb_false_inv in Egt.
    destruct (set_slot tbl obj_uid) as [idx|]; [|discriminate].
    destruct (tbl !! Z.to_nat idx) as [e|]; [|discriminate].
    destruct (memcpy (data e) src obj_length) as [d|] eqn:Ecpy; [|discriminate].
    apply memcpy_inv in Ecpy as (? & ? & _). lia. }
  destruct (set_slot_cases tbl obj_uid)
    as [(Hnone & _) | (i & e & Hslot & Hi & _)].
  { unfold storage_set in H. rewrite Hnone in H.
    destruct (obj_length >? STORAGE_MAX_ITEM_SIZE); discriminate. }
  rewrite (storage_set_ok tbl obj_uid obj_length src i e) in H; auto.
  - injection H as <-. exists src, i, e. auto 10.
  - exact (inv_data tbl Hinv i e Hi).
Qed.

(** [storage_set] for a uid that has no slot, when no slot is free. *)
Lemma storage_set_no_slot tbl obj_uid obj_length src :
  set_slot tbl obj_uid = None ->
  storage_set tbl obj_uid obj_length (Some src) =
    Returns PSA_ERROR_INSUFFICIENT_STORAGE tbl.
Proof.
  intros Hslot. unfold storage_set. rewrite Hslot.
  destruct (obj_length >? STORAGE_MAX_ITEM_SIZE); reflexivity.
Qed.

Lemma stored_insert tbl i e' obj_uid :
  stored (<[i := e']> tbl) obj_uid ->
  (used e' = true /\ uid e' = obj_uid) \/ stored tbl obj_uid.
Proof.
  intros (j & y & Hj & Hu & Hid).
  destruct (decide (i = j)) as [->|Hne].
  - assert (j < length tbl)%nat as Hlt.
    { apply lookup_lt_Some in Hj. rewrite length_insert in Hj. exact Hj. }
    rewrite list_lookup_insert_eq in Hj by exact Hlt.
    injection Hj as ->. auto.
  - rewrite list_lookup_insert_ne in Hj by exact Hne.
    right. exists j, y. auto.
Qed.

Lemma storage_remove_absent tbl obj_uid obj_size :
  ~ stored tbl obj_uid ->
  storage_remove tbl obj_uid obj_size = Returns PSA_ERROR_DOES_NOT_EXIST tbl.
Proof.
  intros Hno. unfold storage_remove. rewrite find_entry_absent by exact Hno.
  reflexivity.
Qed.

Lemma storage_remove_present tbl obj_uid obj_size :
  stored tbl obj_uid ->
  exists i e, tbl !! i = Some e /\ used e = true /\ uid e = obj_uid
    /\ find_entry tbl obj_uid = Z.of_nat i
    /\ storage_remove tbl obj_uid obj_size =
         Returns PSA_SUCCESS (<[i := cleared_entry]> tbl).
Proof.
  intros Hst. destruct (find_entry_present tbl obj_uid Hst)
    as (i & e & Hfind & Hi & Hu & Hid).
  exists i, e. repeat split; auto.
  unfold storage_remove. rewrite Hfind.
  rewrite (ltb_false (Z.of_nat i) 0) by lia.
  rewrite Nat2Z.id. reflexivity.
Qed.

(** A [storage_remove] returns the table unchanged or with one slot
    cleared; either way the uid is gone from a table with one slot per
    uid. *)
Lemma storage_remove_inv tbl obj_uid obj_size st tbl' :
  storage_remove tbl obj_uid obj_size = Returns st tbl' ->
  (st = PSA_ERROR_DOES_NOT_EXIST /\ tbl' = tbl /\ ~ stored tbl obj_uid)
  \/ (st = PSA_SUCCESS /\ exists i e, tbl !! i = Some e /\ used e = true
        /\ uid e = obj_uid /\ tbl' = <[i := cleared_entry]> tbl).
Proof.
  intros H. destruct (Z_lt_dec (find_entry tbl obj_uid) 0) as [Hneg|Hpos].
  - left. pose proof (find_entry_absent_inv tbl obj_uid Hneg) as Hno.
    rewrite storage_remove_absent in H by exact Hno. injection H as <- <-. auto.
  - right. assert (stored tbl obj_uid) as Hst.
    { destruct (set_slot_cases tbl obj_uid)
        as [(_ & Hno & _) | (i & e & _ & Hi & [[Hu Hid] | [_ Hno]] & _)].
      - rewrite find_entry_absent in Hpos by exact Hno. lia.
      - exists i, e. auto.
      - rewrite find_entry_absent in Hpos by exact Hno. lia. }
    destruct (storage_remove_present tbl obj_uid obj_size Hst)
      as (i & e & Hi & Hu & Hid & _ & Hrm).
    rewrite Hrm in H. injection H as <- <-. eauto 10.
Qed.

Lemma removed_not_stored tbl obj_uid i e :
  table_inv tbl -> tbl !! i = Some e -> used e = true -> uid e = obj_uid ->
  ~ stored (<[i := cleared_entry]> tbl) obj_uid.
Proof.
  intros Hinv Hi Hu Hid Hst.
  destruct Hst as (j & y & Hj & Hyu & Hyid).
  destruct (decide (i = j)) as [->|Hne].
  - rewrite list_lookup_insert_eq in Hj by (eapply lookup_lt_Some; eauto).
    injection Hj as <-. discriminate.
  - rewrite list_lookup_insert_ne in Hj by exact Hne.
    apply Hne. apply (inv_unique tbl Hinv i j e y); congruence.
Qed.

End TableOperations.

(** ** The slot table: the invariant of the reachable tables *)

Section TableInvariant.

Import Volatile.

Implicit Types (tbl : storage_table_t) (e : storage_entry_t).

Lemma storage_init_inv : table_inv storage_init.
Proof.
  split.
  - reflexivity.
  - intros i e Hi. apply lookup_replicate in Hi as [-> _]. reflexivity.
  - intros i e Hi. apply lookup_replicate in Hi as [-> _]. simpl.
    unfold STORAGE_MAX_ITEM_SIZE. lia.
  - intros i j ei ej Hi _ Hu. apply lookup_replicate in Hi as [-> _].
    discriminate.
Qed.

Lemma storage_init_empty obj_uid : ~ stored storage_init obj_uid.
Proof.
  intros (i & e & Hi & Hu & _). apply lookup_replicate in Hi as [-> _].
  discriminate.
Qed.

Lemma table_inv_set tbl obj_uid obj_length src i e :
  table_inv tbl ->
  set_slot tbl obj_uid = Some (Z.of_nat i) -> tbl !! i = Some e ->
  0 <= obj_length <= STORAGE_MAX_ITEM_SIZE ->
  obj_length <= Z.of_nat (length src) ->
  table_inv (<[i := mk_entry true obj_uid obj_length
                      (slot_image src obj_length)]> tbl).
Proof.
  intros Hinv Hslot Hi Hlen Hsrc.
  assert (i < length tbl)%nat as Hlt by (eapply lookup_lt_Some; eauto).
  assert (forall j y, j <> i -> tbl !! j = Some y -> used y = true ->
            uid y = obj_uid -> False) as Hother.
  { intros j y Hne Hj Hyu Hyid.
    destruct (set_slot_cases tbl obj_uid)
      as [(Hnone & _) | (k & z & Hk & Hkz & Hwhy & _)]; [congruence|].
    assert (k = i) as -> by (apply Nat2Z.inj; congruence).
    assert (z = e) as -> by congruence.
    destruct Hwhy as [[Hu Hid] | [_ Hno]].
    - apply Hne. apply (inv_unique tbl Hinv j i y e); congruence.
    - apply Hno. exists j, y. auto. }
  split.
  - rewrite length_insert. exact (inv_length tbl Hinv).
  - intros j y Hj. destruct (decide (i = j)) as [->|Hne].
    + rewrite list_lookup_insert_eq in Hj by exact Hlt. injection Hj as <-.
      simpl. apply slot_image_length; assumption.
    + rewrite list_lookup_insert_ne in Hj by exact Hne.
      exact (inv_data tbl Hinv j y Hj).
  - intros j y Hj. destruct (decide (i = j)) as [->|Hne].
    + rewrite list_lookup_insert_eq in Hj by exact Hlt. injection Hj as <-.
      simpl. exact Hlen.
    + rewrite list_lookup_insert_ne in Hj by exact Hne.
      exact (inv_size tbl Hinv j y Hj).
  - intros j k yj yk Hj Hk Huj Huk Hid.
    destruct (decide (i = j)) as [<-|Hnej]; destruct (decide (i = k)) as [<-|Hnek].
    + reflexivity.
    + exfalso. rewrite list_lookup_insert_eq in Hj by exact Hlt.
      rewrite list_lookup_insert_ne in Hk by exact Hnek.
      injection Hj as <-. simpl in Hid.
      apply (Hother k yk); auto.
    + exfalso. rewrite list_lookup_insert_eq in Hk by exact Hlt.
      rewrite list_lookup_insert_ne in Hj by exact Hnej.
      injection Hk as <-. simpl in Hid.
      apply (Hother j yj); auto.
    + rewrite list_lookup_insert_ne in Hj by exact Hnej.
      rewrite list_lookup_insert_ne in Hk by exact Hnek.
      exact (inv_unique tbl Hinv j k yj yk Hj Hk Huj Huk Hid).
Qed.

Lemma table_inv_clear tbl i :
  table_inv tbl -> table_inv (<[i := cleared_entry]> tbl).
Proof.
  intros Hinv. split.
  - rewrite length_insert. exact (inv_length tbl Hinv).
  - intros j y Hj. apply list_lookup_insert_Some in Hj
      as [(-> & <- & _) | (_ & Hj)]; [reflexivity|].
    exact (inv_data tbl Hinv j y Hj).
  - intros j y Hj. apply list_lookup_insert_Some in Hj
      as [(-> & <- & _) | (_ & Hj)].
    + simpl. unfold STORAGE_MAX_ITEM_SIZE. lia.
    + exact (inv_size tbl Hinv j y Hj).
  - intros j k yj yk Hj Hk Huj Huk Hid.
    apply list_lookup_insert_Some in Hj as [(_ & <- & _) | (_ & Hj)];
      [discriminate|].
    apply list_lookup_insert_Some in Hk as [(_ & <- & _) | (_ & Hk)];
      [discriminate|].
    exact (inv_unique tbl Hinv j k yj yk Hj Hk Huj Huk Hid).
Qed.

Lemma table_inv_storage_set tbl obj_uid obj_length p_obj st tbl' :
  table_inv tbl ->
  storage_set tbl obj_uid obj_length p_obj = Returns st tbl' ->
  table_inv tbl'.
Proof.
  intros Hinv H. destruct (decide (st = PSA_SUCCESS)) as [->|Hst].
  - apply storage_set_success in H
      as (src & i & e & _ & Hslot & Hi & Hlen & Hsrc & ->); [|exact Hinv].
    eapply table_inv_set; eauto.
  - apply storage_set_error in H; [|exact Hst]. subst tbl'. exact Hinv.
Qed.

Lemma table_inv_storage_remove tbl obj_uid obj_size st tbl' :
  table_inv tbl ->
  storage_remove tbl obj_uid obj_size = Returns st tbl' ->
  table_inv tbl'.
Proof.
  intros Hinv H. apply storage_remove_inv in H
    as [(_ & -> & _) | (_ & i & e & _ & _ & _ & ->)].
  - exact Hinv.
  - apply table_inv_clear. exact Hinv.
Qed.

(** Every table the program reaches satisfies the invariant. *)
Lemma history_inv written tbl : history written tbl -> table_inv tbl.
Proof.
  induction 1 as [| written tbl obj_uid obj_length p_obj st tbl' _ IH Hset
                  | written tbl obj_uid obj_size st tbl' _ IH Hrm].
  - exact storage_init_inv.
  - eapply table_inv_storage_set; eauto.
  - eapply table_inv_storage_remove; eauto.
Qed.

(** A uid that no [storage_set] was given is in no slot. *)
Lemma history_never_written written tbl obj_uid :
  history written tbl -> obj_uid ∉ written -> ~ stored tbl obj_uid.
Proof.
  induction 1 as [| written tbl u obj_length p_obj st tbl' Hh IH Hset
                  | written tbl u obj_size st tbl' Hh IH Hrm]; intros Hnot.
  - apply storage_init_empty.
  - apply not_elem_of_cons in Hnot as [Hne Hnot]. specialize (IH Hnot).
    destruct (decide (st = PSA_SUCCESS)) as [->|Hst].
    + apply storage_set_success in Hset
        as (src & i & e & _ & _ & _ & _ & _ & ->);
        [|eapply history_inv; eauto].
      intros Hst. apply stored_insert in Hst as [[_ Hid] | Hst]; auto.
    + apply storage_set_error in Hset; [|exact Hst]. subst tbl'. exact IH.
  - specialize (IH Hnot). apply storage_remove_inv in Hrm
      as [(_ & -> & _) | (_ & i & e & _ & _ & _ & ->)]; [exact IH|].
    intros Hst. apply stored_insert in Hst as [[Hu _] | Hst]; auto.
    discriminate.
Qed.

End TableInvariant.

(** ** The slot table: reading *)

Section TableReads.

Import Volatile.

Implicit Types (tbl : storage_table_t) (e : storage_entry_t).

Lemma take_drop_payload e (off n : Z) :
  0 <= off -> 0 <= n -> off + n <= size e ->
  take (Z.to_nat n) (drop (Z.to_nat off) (payload e))
  = take (Z.to_nat n) (drop (Z.to_nat off) (data e)).
Proof.
  intros Hoff Hn Hle. unfold payload.
  rewrite !take_drop_commute, take_take. do 2 f_equal. lia.
Qed.

Lemma storage_get_absent tbl obj_uid obj_offset obj_length out :
  ~ stored tbl obj_uid ->
  storage_get tbl obj_uid obj_offset obj_length (Some out) =
    Returns PSA_ERROR_DOES_NOT_EXIST (Some out).
Proof.
  intros Hno. unfold storage_get. rewrite find_entry_absent by exact Hno.
  reflexivity.
Qed.

Lemma storage_get_info_absent tbl obj_uid p_obj_info obj_info_size :
  ~ stored tbl obj_uid ->
  storage_get_info tbl obj_uid p_obj_info obj_info_size =
    Returns PSA_ERROR_DOES_NOT_EXIST p_obj_info.
Proof.
  intros Hno. unfold storage_get_info. rewrite find_entry_absent by exact Hno.
  reflexivity.
Qed.

Lemma storage_get_beyond tbl obj_uid i e obj_offset obj_length out :
  table_inv tbl -> tbl !! i = Some e -> used e = true -> uid e = obj_uid ->
  size e < obj_offset ->
  storage_get tbl obj_uid obj_offset obj_length (Some out) =
    Returns PSA_ERROR_INVALID_ARGUMENT (Some out).
Proof.
  intros Hinv Hi Hu Hid Hoff. unfold storage_get.
  rewrite (find_entry_unique tbl obj_uid i e Hinv Hi Hu Hid).
  rewrite (ltb_false (Z.of_nat i) 0) by lia. rewrite Nat2Z.id, Hi.
  rewrite gtb_true by exact Hoff. reflexivity.
Qed.

Lemma storage_get_within tbl obj_uid i e obj_offset obj_length out :
  table_inv tbl -> tbl !! i = Some e -> used e = true -> uid e = obj_uid ->
  0 <= obj_offset <= size e -> 0 <= obj_length ->
  Z.min obj_length (size e - obj_offset) <= Z.of_nat (length out) ->
  storage_get tbl obj_uid obj_offset obj_length (Some out) =
    Returns PSA_SUCCESS
      (Some (take (Z.to_nat (Z.min obj_length (size e - obj_offset)))
               (drop (Z.to_nat obj_offset) (data e))
             ++ drop (Z.to_nat (Z.min obj_length (size e - obj_offset))) out)).
Proof.
  intros Hinv Hi Hu Hid Hoff Hlen Hout. unfold storage_get.
  rewrite (find_entry_unique tbl obj_uid i e Hinv Hi Hu Hid).
  rewrite (ltb_false (Z.of_nat i) 0) by lia. rewrite Nat2Z.id, Hi.
  rewrite gtb_false by lia.
  pose proof (inv_data tbl Hinv i e Hi) as Hdata.
  pose proof (inv_size tbl Hinv i e Hi) as Hsize.
  set (avail := size e - obj_offset).
  assert ((if obj_length >? avail then avail else obj_length)
          = Z.min obj_length avail) as ->.
  { destruct (obj_length >? avail) eqn:E.
    - apply gtb_true_inv in E. lia.
    - apply gtb_false_inv in E. lia. }
  set (n := Z.min obj_length avail) in *.
  destruct (n >? 0) eqn:En.
  - rewrite advance_in_range by lia.
    rewrite memcpy_Some; [reflexivity | lia | | exact Hout].
    rewrite length_drop. unfold avail in n. lia.
  - apply gtb_false_inv in En. assert (n = 0) as -> by (unfold avail in n; lia).
    reflexivity.
Qed.

Lemma storage_get_info_within tbl obj_uid i e info obj_info_size :
  table_inv tbl -> tbl !! i = Some e -> used e = true -> uid e = obj_uid ->
  0 <= obj_info_size <= size e ->
  obj_info_size <= Z.of_nat (length info) ->
  storage_get_info tbl obj_uid (Some info) obj_info_size =
    Returns PSA_SUCCESS
      (Some (take (Z.to_nat obj_info_size) (data e)
             ++ drop (Z.to_nat obj_info_size) info)).
Proof.
  intros Hinv Hi Hu Hid Hsz Hinfo. unfold storage_get_info.
  rewrite (find_entry_unique tbl obj_uid i e Hinv Hi Hu Hid).
  rewrite (ltb_false (Z.of_nat i) 0) by lia. rewrite Nat2Z.id, Hi.
  rewrite gtb_false by lia.
  pose proof (inv_data tbl Hinv i e Hi) as Hdata.
  pose proof (inv_size tbl Hinv i e Hi) as Hsize.
  rewrite memcpy_Some; [reflexivity | lia | lia | exact Hinfo].
Qed.

Lemma storage_get_info_beyond tbl obj_uid i e info obj_info_size :
  table_inv tbl -> tbl !! i = Some e -> used e = true -> uid e = obj_uid ->
  size e < obj_info_size ->
  storage_get_info tbl obj_uid (Some info) obj_info_size =
    Returns PSA_ERROR_INVALID_ARGUMENT (Some info).
Proof.
  intros Hinv Hi Hu Hid Hsz. unfold storage_get_info.
  rewrite (find_entry_unique tbl obj_uid i e Hinv Hi Hu Hid).
  rewrite (ltb_false (Z.of_nat i) 0) by lia. rewrite Nat2Z.id, Hi.
  rewrite gtb_true by exact Hsz. reflexivity.
Qed.

(** The table a successful [storage_set] leaves: it satisfies the
    invariant and one of its slots holds the object. *)
Lemma storage_set_stores tbl obj_uid obj_length p_obj tbl' :
  table_inv tbl ->
  storage_set tbl obj_uid obj_length p_obj = Returns PSA_SUCCESS tbl' ->
  exists src i,
    p_obj = Some src /\ 0 <= obj_length <= STORAGE_MAX_ITEM_SIZE
    /\ obj_length <= Z.of_nat (length src) /\ table_inv tbl'
    /\ tbl' !! i = Some (mk_entry true obj_uid obj_length
                           (slot_image src obj_length)).
Proof.
  intros Hinv H.
  pose proof (table_inv_storage_set _ _ _ _ _ _ Hinv H) as Hinv'.
  apply storage_set_success in H
    as (src & i & e & -> & Hslot & Hi & Hlen & Hsrc & ->); [|exact Hinv].
  exists src, i. split; [reflexivity|]. split; [exact Hlen|].
  split; [exact Hsrc|]. split; [exact Hinv'|].
  apply list_lookup_insert_eq. eapply lookup_lt_Some; eauto.
Qed.

End TableReads.

(** ** The ZMS layer *)

Section LayerFacts.

Import Zfs.

Context {FS : Type} `{!ZmsDriver FS}.

Variable sizeof_its_obj_info_t : Z.
Variable stack_buf : list byte.

Abbreviation storage_get := (storage_get sizeof_its_obj_info_t stack_buf).

(** The statuses the layer can return: the three read and delete calls
    have no path to [PSA_ERROR_DOES_NOT_EXIST]. *)
Lemma layer_get_status (fs : FS) obj_uid obj_offset obj_length p_obj :
  status_of (storage_get fs obj_uid obj_offset obj_length p_obj)
  <> Some PSA_ERROR_DOES_NOT_EXIST.
Proof.
  unfold Zfs.storage_get. destruct p_obj as [out|]; [|discriminate].
  destruct (window_too_large obj_offset obj_length); [discriminate|].
  destruct (zms_read fs obj_uid stack_buf SIZEOF_BUF) as [rc buf].
  destruct (rc <? 0); [discriminate|].
  destruct (rc <? uint32_add obj_offset obj_length); [discriminate|].
  destruct (memcpy out _ obj_length); discriminate.
Qed.

Lemma layer_get_info_status (fs : FS) obj_uid p_obj_info obj_info_size :
  status_of (storage_get_info fs obj_uid p_obj_info obj_info_size)
  <> Some PSA_ERROR_DOES_NOT_EXIST.
Proof.
  unfold storage_get_info. destruct p_obj_info as [info|]; [|discriminate].
  destruct (zms_read fs obj_uid info obj_info_size) as [rc info'].
  destruct (rc <? 0); [discriminate|].
  destruct (rc <? obj_info_size); discriminate.
Qed.

Lemma layer_remove_status (fs : FS) obj_uid obj_size :
  status_of (storage_remove fs obj_uid obj_size)
  <> Some PSA_ERROR_DOES_NOT_EXIST.
Proof.
  unfold storage_remove. destruct (zms_delete fs obj_uid) as [rc fs'].
  destruct (rc <? 0); discriminate.
Qed.

(** [storage_set] always returns, and what it returns is decided by
    its arguments and the count [zms_write] reports. *)
Lemma layer_set_cases (fs : FS) obj_uid obj_length p_obj :
  (p_obj = None
   /\ storage_set fs obj_uid obj_length p_obj =
        Returns PSA_ERROR_INVALID_ARGUMENT fs)
  \/ (exists src, p_obj = Some src /\ STORAGE_MAX_ITEM_SIZE < obj_length
      /\ storage_set fs obj_uid obj_length p_obj =
           Returns PSA_ERROR_INSUFFICIENT_STORAGE fs)
  \/ (exists src rc fs', p_obj = Some src /\ obj_length <= STORAGE_MAX_ITEM_SIZE
      /\ zms_write fs obj_uid src obj_length = (rc, fs')
      /\ ((rc < 0 \/ rc < obj_length)
          /\ storage_set fs obj_uid obj_length p_obj =
               Returns PSA_ERROR_IO_ERROR fs'
          \/ (0 <= rc /\ obj_length <= rc)
          /\ storage_set fs obj_uid obj_length p_obj =
               Returns PSA_SUCCESS fs')).
Proof.
  unfold storage_set. destruct p_obj as [src|]; [|left; auto].
  right. destruct (obj_length >? STORAGE_MAX_ITEM_SIZE) eqn:Egt.
  { left. apply gtb_true_inv in Egt. eauto. }
  apply gtb_false_inv in Egt. right.
  destruct (zms_write fs obj_uid src obj_length) as [rc fs'] eqn:Ew.
  exists src, rc, fs'. split; [reflexivity|]. split; [exact Egt|].
  split; [exact Ew|].
  destruct (rc <? 0) eqn:E0.
  { apply Z.ltb_lt in E0. left. auto. }
  apply Z.ltb_ge in E0. destruct (rc <? obj_length) eqn:E1.
  { apply Z.ltb_lt in E1. left. auto. }
  apply Z.ltb_ge in E1. right. auto.
Qed.

(** The window check on sums that do not wrap. *)
Lemma window_too_large_iff obj_offset obj_length :
  0 <= obj_offset -> 0 <= obj_length ->
  obj_offset + obj_length < UINT32_MODULUS ->
  window_too_large obj_offset obj_length = true
  <-> SIZEOF_BUF < obj_offset + obj_length.
Proof.
  intros Ho Hl Hsum. unfold window_too_large, uint32_add.
  rewrite Z.mod_small by lia. split.
  - apply gtb_true_inv.
  - apply gtb_true.
Qed.

Lemma layer_get_window (fs : FS) obj_uid obj_offset obj_length out :
  window_too_large obj_offset obj_length = true ->
  storage_get fs obj_uid obj_offset obj_length (Some out) =
    Returns PSA_ERROR_INVALID_ARGUMENT (Some out).
Proof. intros Hw. unfold Zfs.storage_get. rewrite Hw. reflexivity. Qed.

Lemma layer_get_short (fs : FS) obj_uid obj_offset obj_length out rc buf :
  window_too_large obj_offset obj_length = false ->
  zms_read fs obj_uid stack_buf SIZEOF_BUF = (rc, buf) ->
  rc < uint32_add obj_offset obj_length ->
  storage_get fs obj_uid obj_offset obj_length (Some out) =
    Returns PSA_ERROR_IO_ERROR (Some out).
Proof.
  intros Hw Hread Hrc. unfold Zfs.storage_get. rewrite Hw, Hread.
  destruct (rc <? 0); [reflexivity|].
  rewrite (proj2 (Z.ltb_lt _ _) Hrc). reflexivity.
Qed.

Lemma layer_get_copy (fs : FS) obj_uid obj_offset obj_length out rc buf :
  window_too_large obj_offset obj_length = false ->
  zms_read fs obj_uid stack_buf SIZEOF_BUF = (rc, buf) ->
  0 <= rc -> uint32_add obj_offset obj_length <= rc ->
  storage_get fs obj_uid obj_offset obj_length (Some out) =
    match memcpy out (copy_source sizeof_its_obj_info_t buf obj_offset)
            obj_length with
    | Some out' => Returns PSA_SUCCESS (Some out')
    | None => OutOfBounds
    end.
Proof.
  intros Hw Hread H0 Hrc. unfold Zfs.storage_get. rewrite Hw, Hread.
  rewrite (ltb_false rc 0) by lia. rewrite ltb_false by exact Hrc.
  destruct (memcpy out _ obj_length); reflexivity.
Qed.

(** A copy that starts beyond the end of [buf] reads nothing that is
    in [buf]. *)
Lemma copy_source_far buf obj_offset :
  Z.of_nat (length buf) < obj_offset ->
  copy_source sizeof_its_obj_info_t buf obj_offset = [].
Proof.
  intros Hfar. unfold copy_source.
  pose proof (advance_length buf sizeof_its_obj_info_t) as Hlen.
  unfold advance at 1.
  rewrite (proj2 (Z.leb_gt obj_offset _)) by lia.
  rewrite andb_false_r. reflexivity.
Qed.

Lemma copy_source_length buf obj_offset :
  0 <= sizeof_its_obj_info_t -> 0 <= obj_offset ->
  Z.of_nat (length (copy_source sizeof_its_obj_info_t buf obj_offset))
  = Z.max 0 (Z.of_nat (length buf) - sizeof_its_obj_info_t - obj_offset).
Proof.
  intros Hs Ho. unfold copy_source, advance.
  destruct (sizeof_its_obj_info_t <=? Z.of_nat (length buf)) eqn:E1.
  - apply Z.leb_le in E1. rewrite (proj2 (Z.leb_le 0 _) Hs). simpl.
    rewrite length_drop. rewrite (proj2 (Z.leb_le 0 _) Ho). simpl.
    destruct (obj_offset <=? _) eqn:E2.
    + apply Z.leb_le in E2. rewrite !length_drop. lia.
    + apply Z.leb_gt in E2. simpl. lia.
  - apply Z.leb_gt in E1. rewrite andb_false_r. simpl.
    rewrite (proj2 (Z.leb_le 0 _) Ho). simpl.
    rewrite drop_nil. destruct (obj_offset <=? Z.of_nat 0); simpl; lia.
Qed.

End LayerFacts.

(** ** The reference log *)

Section ReferenceLog.

Lemma reflog_keeps_records : Zfs.keeps_records RefLog.log.
Proof.
  intros fs fs' id src len rc Hw Hlen Hrc buf n Hn.
  simpl in Hw. unfold RefLog.write in Hw.
  destruct ((RefLog.room fs <=? 0) && (0 <? len)) eqn:Efull.
  { injection Hw as <- <-. unfold RefLog.ENOSPC in Hrc. lia. }
  injection Hw as <- <-.
  assert (Z.min len (RefLog.room fs) = len) as Hmin by lia.
  simpl. unfold RefLog.read. simpl. rewrite Hmin, lookup_insert_eq.
  rewrite length_take.
  replace (Z.of_nat (Z.to_nat len `min` length src)) with len by lia.
  rewrite take_take. do 3 f_equal. lia.
Qed.

Lemma reflog_set_digits :
  Zfs.storage_set (RefLog.empty 4096) 10 10 (Some digits) =
    Returns PSA_SUCCESS log_digits.
Proof. vm_compute. reflexivity. Qed.

Lemma table_digits_set :
  Volatile.storage_set Volatile.storage_init 10 10 (Some digits) =
    Returns PSA_SUCCESS table_digits.
Proof. vm_compute. reflexivity. Qed.

Lemma table_digits_history : Volatile.history [10] table_digits.
Proof.
  eapply Volatile.history_set; [apply Volatile.history_init |].
  exact table_digits_set.
Qed.

Lemma table_digits_inv : Volatile.table_inv table_digits.
Proof. eapply history_inv. exact table_digits_history. Qed.

Lemma table_eight_history :
  Volatile.history [8; 7; 6; 5; 4; 3; 2; 1] table_eight.
Proof.
  pose (upto := fun k : nat =>
    take k table_eight ++ drop k Volatile.storage_init).
  change table_eight with (upto 8%nat).
  apply (Volatile.history_set _ (upto 7%nat) 8 0 (Some []) PSA_SUCCESS);
    [| vm_compute; reflexivity].
  apply (Volatile.history_set _ (upto 6%nat) 7 0 (Some []) PSA_SUCCESS);
    [| vm_compute; reflexivity].
  apply (Volatile.history_set _ (upto 5%nat) 6 0 (Some []) PSA_SUCCESS);
    [| vm_compute; reflexivity].
  apply (Volatile.history_set _ (upto 4%nat) 5 0 (Some []) PSA_SUCCESS);
    [| vm_compute; reflexivity].
  apply (Volatile.history_set _ (upto 3%nat) 4 0 (Some []) PSA_SUCCESS);
    [| vm_compute; reflexivity].
  apply (Volatile.history_set _ (upto 2%nat) 3 0 (Some []) PSA_SUCCESS);
    [| vm_compute; reflexivity].
  apply (Volatile.history_set _ (upto 1%nat) 2 0 (Some []) PSA_SUCCESS);
    [| vm_compute; reflexivity].
  apply (Volatile.history_set _ (upto 0%nat) 1 0 (Some []) PSA_SUCCESS);
    [| vm_compute; reflexivity].
  apply Volatile.history_init.
Qed.

Lemma table_eight_full : Volatile.full table_eight.
Proof.
  assert (Forall (fun e => Volatile.used e = true) table_eight) as Hall
    by (repeat constructor).
  intros i e Hi. exact (proj1 (Forall_lookup _ _) Hall i e Hi).
Qed.

End ReferenceLog.

(** * The four operations: what holds of them *)

(** ** Reading a window of a stored object from the table *)

Section VolatileGet.

Import Volatile.

(** C4. Volatile Table Store: for a stored uid whose slot [e] holds
    [size e] bytes, [storage_get] with a non-null [out] fails with
    [PSA_ERROR_INVALID_ARGUMENT] when the offset is larger than the
    stored size; otherwise it puts the [min obj_length (size e -
    obj_offset)] bytes of the stored payload that start at the offset at
    the start of [out], leaves the rest of [out] as it was, and returns
    [PSA_SUCCESS], also when that is fewer bytes than were asked for. *)
Theorem volatile_get_clamps_to_stored_size
    (tbl : storage_table_t) (obj_uid : Z) (i : nat) (e : storage_entry_t)
    (obj_offset obj_length : Z) (out : list byte) :
  table_inv tbl ->
  tbl !! i = Some e -> used e = true -> uid e = obj_uid ->
  0 <= obj_offset -> 0 <= obj_length ->
  (size e < obj_offset ->
   storage_get tbl obj_uid obj_offset obj_length (Some out) =
     Returns PSA_ERROR_INVALID_ARGUMENT (Some out))
  /\ (obj_offset <= size e ->
      Z.min obj_length (size e - obj_offset) <= Z.of_nat (length out) ->
      storage_get tbl obj_uid obj_offset obj_length (Some out) =
        Returns PSA_SUCCESS
          (Some (take (Z.to_nat (Z.min obj_length (size e - obj_offset)))
                   (drop (Z.to_nat obj_offset) (payload e))
                 ++ drop (Z.to_nat (Z.min obj_length (size e - obj_offset)))
                      out))).
Proof.
  intros Hinv Hi Hu Hid Hoff Hlen. split.
  - intros Hbeyond. eapply storage_get_beyond; eauto.
  - intros Hin Hout.
    rewrite take_drop_payload by lia.
    eapply storage_get_within; eauto.
Qed.

(** The scenario of the specification: after
    [storage_set(0xA, 10, "0123456789")], the window (3, 4) is "3456"
    and the window (8, 10) is the two bytes "89". *)
Lemma volatile_get_clamps_to_stored_size_witness :
  storage_get table_digits 10 3 4 (Some (blank 4)) =
    Returns PSA_SUCCESS (Some (bytes_of "3456"))
  /\ storage_get table_digits 10 8 10 (Some (blank 10)) =
       Returns PSA_SUCCESS (Some (bytes_of "89" ++ blank 8))
  /\ storage_get table_digits 10 11 1 (Some (blank 1)) =
       Returns PSA_ERROR_INVALID_ARGUMENT (Some (blank 1)).
Proof.
  pose (e := mk_entry true 10 10 (slot_image digits 10)).
  assert (table_digits !! 0%nat = Some e) as Hi by reflexivity.
  split; [|split].
  - apply (proj2 (volatile_get_clamps_to_stored_size table_digits 10 0 e 3 4
                    (blank 4) table_digits_inv Hi eq_refl eq_refl
                    ltac:(lia) ltac:(lia)));
      vm_compute; congruence.
  - apply (proj2 (volatile_get_clamps_to_stored_size table_digits 10 0 e 8 10
                    (blank 10) table_digits_inv Hi eq_refl eq_refl
                    ltac:(lia) ltac:(lia)));
      vm_compute; congruence.
  - apply (proj1 (volatile_get_clamps_to_stored_size table_digits 10 0 e 11 1
                    (blank 1) table_digits_inv Hi eq_refl eq_refl
                    ltac:(lia) ltac:(lia))).
    vm_compute. reflexivity.
Defined.

End VolatileGet.

(** ** The capacity of the table *)

Section VolatileCapacity.

Import Volatile.

Implicit Types (tbl : storage_table_t) (e : storage_entry_t).

Lemma full_set_new_uid tbl obj_uid obj_length src :
  full tbl -> ~ stored tbl obj_uid ->
  storage_set tbl obj_uid obj_length (Some src) =
    Returns PSA_ERROR_INSUFFICIENT_STORAGE tbl.
Proof.
  intros Hfull Hno. apply storage_set_no_slot.
  destruct (set_slot_cases tbl obj_uid)
    as [(Hnone & _) | (i & e & _ & Hi & [[Hu Hid] | [Hfree _]] & _)].
  - exact Hnone.
  - exfalso. apply Hno. exists i, e. auto.
  - rewrite (Hfull i e Hi) in Hfree. discriminate.
Qed.

Lemma stored_set_succeeds tbl obj_uid obj_length src :
  table_inv tbl -> stored tbl obj_uid ->
  0 <= obj_length <= STORAGE_MAX_ITEM_SIZE ->
  obj_length <= Z.of_nat (length src) ->
  exists i e, tbl !! i = Some e /\ used e = true /\ uid e = obj_uid
    /\ storage_set tbl obj_uid obj_length (Some src) =
         Returns PSA_SUCCESS
           (<[i := mk_entry true obj_uid obj_length
                     (slot_image src obj_length)]> tbl).
Proof.
  intros Hinv Hst Hlen Hsrc.
  destruct (set_slot_cases tbl obj_uid)
    as [(_ & Hno & _) | (i & e & Hslot & Hi & [[Hu Hid] | [_ Hno]] & _)];
    try contradiction.
  exists i, e. repeat split; auto.
  apply (storage_set_ok tbl obj_uid obj_length src i e); auto.
  exact (inv_data tbl Hinv i e Hi).
Qed.

(** In a full table with slot [i] cleared, a uid that is not stored is
    given slot [i], and the table is full again. *)
Lemma refill_cleared_slot tbl i e obj_uid obj_length src :
  table_inv tbl -> full tbl -> tbl !! i = Some e ->
  ~ stored (<[i := cleared_entry]> tbl) obj_uid ->
  0 <= obj_length <= STORAGE_MAX_ITEM_SIZE ->
  obj_length <= Z.of_nat (length src) ->
  storage_set (<[i := cleared_entry]> tbl) obj_uid obj_length (Some src) =
    Returns PSA_SUCCESS
      (<[i := mk_entry true obj_uid obj_length (slot_image src obj_length)]> tbl)
  /\ full (<[i := mk_entry true obj_uid obj_length
                     (slot_image src obj_length)]> tbl).
Proof.
  intros Hinv Hfull Hi Hno Hlen Hsrc.
  assert (i < length tbl)%nat as Hlt by (eapply lookup_lt_Some; eauto).
  split.
  - destruct (set_slot_cases (<[i := cleared_entry]> tbl) obj_uid)
      as [(_ & _ & Hfull') | (k & y & Hslot & Hk & [[Hu Hid] | [Hfree _]] & _)].
    + specialize (Hfull' i cleared_entry).
      rewrite list_lookup_insert_eq in Hfull' by exact Hlt.
      specialize (Hfull' eq_refl). discriminate.
    + exfalso. apply Hno. exists k, y. auto.
    + assert (k = i) as ->.
      { destruct (decide (i = k)) as [->|Hne]; [reflexivity|].
        rewrite list_lookup_insert_ne in Hk by exact Hne.
        rewrite (Hfull k y Hk) in Hfree. discriminate. }
      rewrite (storage_set_ok _ obj_uid obj_length src i y Hslot Hk); auto.
      * rewrite list_insert_insert_eq. reflexivity.
      * rewrite list_lookup_insert_eq in Hk by exact Hlt.
        injection Hk as <-. reflexivity.
  - intros j y Hj. apply list_lookup_insert_Some in Hj
      as [(_ & <- & _) | (_ & Hj)]; [reflexivity|]. exact (Hfull j y Hj).
Qed.

(** C7. Volatile Table Store: with all 8 slots in use (8 distinct uids
    stored), [storage_set] for a uid that is not stored fails with
    [PSA_ERROR_INSUFFICIENT_STORAGE] and returns the table as it was;
    [storage_set] for a stored uid succeeds; and after a stored uid is
    removed one new uid can be stored, after which [storage_set] for a
    further new uid fails with [PSA_ERROR_INSUFFICIENT_STORAGE]
    again. *)
Theorem volatile_capacity_is_eight_slots (tbl : storage_table_t) :
  table_inv tbl -> full tbl ->
  (forall v len src, ~ stored tbl v ->
     storage_set tbl v len (Some src) =
       Returns PSA_ERROR_INSUFFICIENT_STORAGE tbl)
  /\ (forall u len src, stored tbl u ->
        0 <= len <= STORAGE_MAX_ITEM_SIZE -> len <= Z.of_nat (length src) ->
        exists tbl', storage_set tbl u len (Some src) = Returns PSA_SUCCESS tbl')
  /\ (forall u obj_size, stored tbl u ->
        exists tbl1,
          storage_remove tbl u obj_size = Returns PSA_SUCCESS tbl1
          /\ forall v1 len1 src1, ~ stored tbl1 v1 ->
               0 <= len1 <= STORAGE_MAX_ITEM_SIZE ->
               len1 <= Z.of_nat (length src1) ->
               exists tbl2,
                 storage_set tbl1 v1 len1 (Some src1) = Returns PSA_SUCCESS tbl2
                 /\ forall v2 len2 src2, ~ stored tbl2 v2 ->
                      storage_set tbl2 v2 len2 (Some src2) =
                        Returns PSA_ERROR_INSUFFICIENT_STORAGE tbl2).
Proof.
  intros Hinv Hfull. split; [|split].
  - intros v len src Hno. apply full_set_new_uid; assumption.
  - intros u len src Hst Hlen Hsrc.
    destruct (stored_set_succeeds tbl u len src Hinv Hst Hlen Hsrc)
      as (i & e & _ & _ & _ & Hset). eauto.
  - intros u obj_size Hst.
    destruct (storage_remove_present tbl u obj_size Hst)
      as (i & e & Hi & _ & _ & _ & Hrm).
    eexists. split; [exact Hrm|].
    intros v1 len1 src1 Hno1 Hlen1 Hsrc1.
    destruct (refill_cleared_slot tbl i e v1 len1 src1) as [Hset Hfull2]; auto.
    eexists. split; [exact Hset|].
    intros v2 len2 src2 Hno2. apply full_set_new_uid; assumption.
Qed.

(** On the table that holds uids 1 to 8: uid 9 is refused, uid 3 can be
    written again, and once uid 3 is removed uid 9 fits. *)
Lemma volatile_capacity_is_eight_slots_witness :
  storage_set table_eight 9 3 (Some letters) =
    Returns PSA_ERROR_INSUFFICIENT_STORAGE table_eight
  /\ (exists tbl', storage_set table_eight 3 3 (Some letters) =
                     Returns PSA_SUCCESS tbl')
  /\ (exists tbl1, storage_remove table_eight 3 0 = Returns PSA_SUCCESS tbl1).
Proof.
  pose proof (volatile_capacity_is_eight_slots table_eight
                (history_inv _ _ table_eight_history) table_eight_full)
    as (Hnew & Hold & Hrm).
  assert (stored table_eight 3) as Hst.
  { exists 2%nat, (mk_entry true 3 0 (slot_image [] 0)). auto. }
  split; [|split].
  - apply Hnew. apply (history_never_written _ _ 9 table_eight_history).
    vm_compute. intros Hin. repeat (apply elem_of_cons in Hin as [Hin|Hin];
      [discriminate|]). apply elem_of_nil in Hin. exact Hin.
  - apply (Hold 3 3 letters Hst);
      [unfold STORAGE_MAX_ITEM_SIZE; lia | simpl; lia].
  - destruct (Hrm 3 0 Hst) as (tbl1 & Hrm1 & _). exists tbl1. exact Hrm1.
Defined.

End VolatileCapacity.

(** ** The unused parameter of remove *)

Section RemoveObjSize.

(** C10. In both backends [storage_remove] ignores [obj_size]: for every
    store, uid and pair of sizes the two calls return the same status
    and leave the same store. *)
Theorem remove_ignores_obj_size
    (tbl : Volatile.storage_table_t)
    (FS : Type) (driver : Zfs.ZmsDriver FS) (fs : FS)
    (obj_uid s1 s2 : Z) :
  Volatile.storage_remove tbl obj_uid s1 = Volatile.storage_remove tbl obj_uid s2
  /\ Zfs.storage_remove fs obj_uid s1 = Zfs.storage_remove fs obj_uid s2.
Proof. split; reflexivity. Qed.

End RemoveObjSize.

(** ** A uid that is not stored *)

Section UnknownUid.

(** On the persistent backend the three calls on a uid the log has
    never seen do not answer [PSA_ERROR_DOES_NOT_EXIST]: on the empty
    reference log [storage_get] and [storage_get_info] return
    [PSA_ERROR_IO_ERROR], and [storage_remove] returns [PSA_SUCCESS],
    twice in a row. *)
Lemma persistent_unknown_uid_is_not_does_not_exist :
  Zfs.storage_get 8 (blank 128) (RefLog.empty 4096) 10 0 4 (Some (blank 4)) =
    Returns PSA_ERROR_IO_ERROR (Some (blank 4))
  /\ Zfs.storage_get_info (RefLog.empty 4096) 10 (Some (blank 4)) 4 =
       Returns PSA_ERROR_IO_ERROR (Some (blank 4))
  /\ Zfs.storage_remove (RefLog.empty 4096) 10 0 =
       Returns PSA_SUCCESS (RefLog.empty 4096)
  /\ Zfs.storage_remove log_digits 10 10 =
       Returns PSA_SUCCESS (RefLog.mk_log ∅ 4086)
  /\ Zfs.storage_remove (RefLog.mk_log ∅ 4086) 10 10 =
       Returns PSA_SUCCESS (RefLog.mk_log ∅ 4086).
Proof. repeat split; vm_compute; reflexivity. Qed.

(** C2, as the code has it. Volatile Table Store: on a table the
    program can reach, a uid that was never written, or that no slot
    holds, makes [storage_get] (with a non-null [out]),
    [storage_get_info] and [storage_remove] return
    [PSA_ERROR_DOES_NOT_EXIST]; removing a stored uid succeeds, after
    which the uid is in no slot and a second [storage_remove] returns
    [PSA_ERROR_DOES_NOT_EXIST]. Persistent Log Store: whatever the
    driver, none of the three calls returns
    [PSA_ERROR_DOES_NOT_EXIST]. [storage_get] (non-null [out], window
    accepted by the check) and [storage_get_info] (non-null buffer)
    return [PSA_ERROR_IO_ERROR] when the driver's read returns a
    negative count or fewer bytes than asked for (the [uint32_t] sum
    offset + length for [storage_get], [obj_info_size] for
    [storage_get_info]); [storage_remove] returns [PSA_ERROR_IO_ERROR]
    when the driver's delete returns a negative code and [PSA_SUCCESS]
    otherwise. *)
Theorem unknown_uid_statuses
    (written : list Z) (tbl : Volatile.storage_table_t) (obj_uid : Z) :
  Volatile.history written tbl ->
  (obj_uid ∉ written \/ ~ Volatile.stored tbl obj_uid ->
   forall obj_offset obj_length out p_obj_info obj_info_size obj_size,
     Volatile.storage_get tbl obj_uid obj_offset obj_length (Some out) =
       Returns PSA_ERROR_DOES_NOT_EXIST (Some out)
     /\ Volatile.storage_get_info tbl obj_uid p_obj_info obj_info_size =
          Returns PSA_ERROR_DOES_NOT_EXIST p_obj_info
     /\ Volatile.storage_remove tbl obj_uid obj_size =
          Returns PSA_ERROR_DOES_NOT_EXIST tbl)
  /\ (Volatile.stored tbl obj_uid ->
      forall s1 s2, exists tbl1,
        Volatile.storage_remove tbl obj_uid s1 = Returns PSA_SUCCESS tbl1
        /\ ~ Volatile.stored tbl1 obj_uid
        /\ Volatile.storage_remove tbl1 obj_uid s2 =
             Returns PSA_ERROR_DOES_NOT_EXIST tbl1)
  /\ (forall (FS : Type) (driver : Zfs.ZmsDriver FS) (fs : FS)
        sizeof_its_obj_info_t stack_buf
        obj_offset obj_length p_obj p_obj_info obj_info_size obj_size,
        status_of (Zfs.storage_get sizeof_its_obj_info_t stack_buf
                     fs obj_uid obj_offset obj_length p_obj)
          <> Some PSA_ERROR_DOES_NOT_EXIST
        /\ status_of (Zfs.storage_get_info fs obj_uid p_obj_info obj_info_size)
             <> Some PSA_ERROR_DOES_NOT_EXIST
        /\ status_of (Zfs.storage_remove fs obj_uid obj_size)
             <> Some PSA_ERROR_DOES_NOT_EXIST
        /\ (forall out,
              Zfs.window_too_large obj_offset obj_length = false ->
              fst (Zfs.zms_read fs obj_uid stack_buf Zfs.SIZEOF_BUF) < 0
              \/ fst (Zfs.zms_read fs obj_uid stack_buf Zfs.SIZEOF_BUF)
                   < uint32_add obj_offset obj_length ->
              Zfs.storage_get sizeof_its_obj_info_t stack_buf
                fs obj_uid obj_offset obj_length (Some out) =
                Returns PSA_ERROR_IO_ERROR (Some out))
        /\ (forall info,
              fst (Zfs.zms_read fs obj_uid info obj_info_size) < 0
              \/ fst (Zfs.zms_read fs obj_uid info obj_info_size)
                   < obj_info_size ->
              Zfs.storage_get_info fs obj_uid (Some info) obj_info_size =
                Returns PSA_ERROR_IO_ERROR
                  (Some (snd (Zfs.zms_read fs obj_uid info obj_info_size))))
        /\ (fst (Zfs.zms_delete fs obj_uid) < 0 ->
            Zfs.storage_remove fs obj_uid obj_size =
              Returns PSA_ERROR_IO_ERROR (snd (Zfs.zms_delete fs obj_uid)))
        /\ (0 <= fst (Zfs.zms_delete fs obj_uid) ->
            Zfs.storage_remove fs obj_uid obj_size =
              Returns PSA_SUCCESS (snd (Zfs.zms_delete fs obj_uid)))).
Proof.
  intros Hhist. pose proof (history_inv _ _ Hhist) as Hinv.
  split; [|split].
  - intros Habsent obj_offset obj_length out p_obj_info obj_info_size obj_size.
    assert (~ Volatile.stored tbl obj_uid) as Hno.
    { destruct Habsent as [Hnever | Hno]; [|exact Hno].
      eapply history_never_written; eauto. }
    split; [|split].
    + apply storage_get_absent. exact Hno.
    + apply storage_get_info_absent. exact Hno.
    + apply storage_remove_absent. exact Hno.
  - intros Hst s1 s2.
    destruct (storage_remove_present tbl obj_uid s1 Hst)
      as (i & e & Hi & Hu & Hid & _ & Hrm).
    pose proof (removed_not_stored tbl obj_uid i e Hinv Hi Hu Hid) as Hgone.
    eexists. split; [exact Hrm|]. split; [exact Hgone|].
    apply storage_remove_absent. exact Hgone.
  - intros FS driver fs sizeof_its_obj_info_t stack_buf
      obj_offset obj_length p_obj p_obj_info obj_info_size obj_size.
    split; [apply layer_get_status|].
    split; [apply layer_get_info_status|].
    split; [apply layer_remove_status|].
    split; [|split; [|split]].
    + intros out Hwin Hrc. unfold Zfs.storage_get. rewrite Hwin.
      destruct (Zfs.zms_read fs obj_uid stack_buf Zfs.SIZEOF_BUF) as [rc buf].
      simpl in Hrc. destruct (rc <? 0) eqn:E0; [reflexivity|].
      apply Z.ltb_ge in E0.
      rewrite (proj2 (Z.ltb_lt rc _)) by lia. reflexivity.
    + intros info Hrc. unfold Zfs.storage_get_info.
      destruct (Zfs.zms_read fs obj_uid info obj_info_size) as [rc info'].
      simpl in *. destruct (rc <? 0) eqn:E0; [reflexivity|].
      apply Z.ltb_ge in E0.
      rewrite (proj2 (Z.ltb_lt rc _)) by lia. reflexivity.
    + intros Hrc. unfold Zfs.storage_remove.
      destruct (Zfs.zms_delete fs obj_uid) as [rc fs']. simpl in *.
      rewrite (proj2 (Z.ltb_lt rc 0)) by exact Hrc. reflexivity.
    + intros Hrc. unfold Zfs.storage_remove.
      destruct (Zfs.zms_delete fs obj_uid) as [rc fs']. simpl in *.
      rewrite (ltb_false rc 0) by exact Hrc. reflexivity.
Qed.

(** On the table that holds "0123456789" under 0xA: uid 0xB was never
    written, and 0xA can be removed once. On the empty reference log:
    a read of 0xA is an I/O error, and a remove of 0xA succeeds. *)
Lemma unknown_uid_statuses_witness :
  Volatile.storage_get table_digits 11 0 4 (Some (blank 4)) =
    Returns PSA_ERROR_DOES_NOT_EXIST (Some (blank 4))
  /\ (exists tbl1,
        Volatile.storage_remove table_digits 10 10 = Returns PSA_SUCCESS tbl1
        /\ Volatile.storage_remove tbl1 10 10 =
             Returns PSA_ERROR_DOES_NOT_EXIST tbl1)
  /\ Zfs.storage_get 8 (blank 128) (RefLog.empty 4096) 10 0 4
       (Some (blank 4)) =
       Returns PSA_ERROR_IO_ERROR (Some (blank 4))
  /\ Zfs.storage_remove (RefLog.empty 4096) 10 0 =
       Returns PSA_SUCCESS (RefLog.empty 4096).
Proof.
  pose proof (unknown_uid_statuses [10] table_digits 11 table_digits_history)
    as (Hnever & _ & _).
  pose proof (unknown_uid_statuses [10] table_digits 10 table_digits_history)
    as (_ & Htwice & Hlog).
  destruct (Hlog RefLog.log RefLog.driver (RefLog.empty 4096) 8 (blank 128)
              0 4 None None 0 0) as (_ & _ & _ & Hget & _ & _ & Hrm).
  split; [|split; [|split]].
  - refine (proj1 (Hnever _ 0 4 (blank 4) None 0 0)).
    left. intros Hin. apply elem_of_cons in Hin as [Hin|Hin];
      [discriminate | apply elem_of_nil in Hin; exact Hin].
  - destruct (Htwice ltac:(exists 0%nat, (Volatile.mk_entry true 10 10
                 (Volatile.slot_image digits 10)); auto) 10 10)
      as (tbl1 & Hrm1 & _ & Hagain).
    exists tbl1. auto.
  - apply Hget; [reflexivity | left; vm_compute; reflexivity].
  - apply Hrm. vm_compute. discriminate.
Defined.

End UnknownUid.

(** ** Writing an object and reading it back *)

Section RoundTrip.

Lemma volatile_round_trip (tbl tbl' : Volatile.storage_table_t)
    (obj_uid : Z) (bytes out : list byte) :
  Volatile.table_inv tbl ->
  Volatile.storage_set tbl obj_uid (Z.of_nat (length bytes)) (Some bytes) =
    Returns PSA_SUCCESS tbl' ->
  (length bytes <= length out)%nat ->
  Volatile.storage_get tbl' obj_uid 0 (Z.of_nat (length bytes)) (Some out) =
    Returns PSA_SUCCESS (Some (bytes ++ drop (length bytes) out)).
Proof.
  intros Hinv Hset Hout.
  apply storage_set_stores in Hset
    as (src & i & [= <-] & Hlen & _ & Hinv' & Hi); [|exact Hinv].
  rewrite (storage_get_within tbl' obj_uid i _ 0 _ out Hinv' Hi eq_refl eq_refl);
    simpl; try lia.
  rewrite Z.sub_0_r, Z.min_id, Nat2Z.id, drop_0.
  do 3 f_equal. unfold Volatile.slot_image. rewrite Nat2Z.id.
  rewrite take_app_le by (rewrite length_take; lia).
  rewrite take_take, Nat.min_id. apply take_ge. lia.
Qed.

Section Persistent.

Import Zfs.

Context {FS : Type} `{!ZmsDriver FS}.

Variable sizeof_its_obj_info_t : Z.
Variable stack_buf : list byte.

(** With a driver that keeps its records, [storage_get] at offset 0
    hands out the bytes of the record that follow its first
    [sizeof(its_obj_info_t)] bytes. *)
Lemma layer_get_after_set (fs fs' : FS) (obj_uid : Z)
    (bytes out : list byte) (n : Z) :
  keeps_records FS ->
  Z.of_nat (length stack_buf) = SIZEOF_BUF ->
  0 <= sizeof_its_obj_info_t ->
  storage_set fs obj_uid (Z.of_nat (length bytes)) (Some bytes) =
    Returns PSA_SUCCESS fs' ->
  0 <= n -> sizeof_its_obj_info_t + n <= Z.of_nat (length bytes) ->
  sizeof_its_obj_info_t + n <= SIZEOF_BUF ->
  n <= Z.of_nat (length out) ->
  storage_get sizeof_its_obj_info_t stack_buf fs' obj_uid 0 n (Some out) =
    Returns PSA_SUCCESS
      (Some (take (Z.to_nat n) (drop (Z.to_nat sizeof_its_obj_info_t) bytes)
             ++ drop (Z.to_nat n) out)).
Proof.
  intros Hkeeps Hstack Hsz Hset Hn Hrec Hbuf Hout.
  unfold SIZEOF_BUF in *.
  set (len := Z.of_nat (length bytes)) in *.
  destruct (layer_set_cases fs obj_uid len (Some bytes))
    as [[? _] | [(src & _ & _ & Hret)
                | (src & rc & fs1 & [= <-] & _ & Hw & [[_ Hret] | [Hrc Hret]])]];
    try discriminate; try congruence.
  rewrite Hset in Hret. injection Hret as <-.
  pose proof (Hkeeps fs fs' obj_uid bytes len rc Hw ltac:(lia) ltac:(lia)
                stack_buf 128 ltac:(lia)) as Hread.
  set (m := Z.min 128 len) in *.
  assert (window_too_large 0 n = false) as Hwin.
  { unfold window_too_large, uint32_add, UINT32_MODULUS, SIZEOF_BUF.
    rewrite Z.add_0_l, Z.mod_small by lia. apply gtb_false. lia. }
  rewrite (layer_get_copy sizeof_its_obj_info_t stack_buf fs' obj_uid 0 n out
             m _ Hwin Hread);
    [| lia | unfold uint32_add, UINT32_MODULUS;
             rewrite Z.add_0_l, Z.mod_small by lia; lia].
  set (buf := take (Z.to_nat m) bytes ++ drop (Z.to_nat m) stack_buf).
  assert (Z.of_nat (length buf) = 128) as Hlbuf.
  { unfold buf. rewrite length_app, length_take, length_drop. lia. }
  unfold copy_source. rewrite advance_zero, advance_in_range by lia.
  rewrite memcpy_Some; [| lia | rewrite length_drop; lia | exact Hout].
  do 3 f_equal. unfold buf.
  rewrite !take_drop_commute. f_equal.
  rewrite take_app_le by (rewrite length_take; lia).
  rewrite take_take. f_equal. lia.
Qed.

End Persistent.

(** With an 8-byte [its_obj_info_t], and also with a 1-byte one, the
    persistent backend does not give back what was written: after
    [storage_set(0xA, 10, "0123456789")] on the reference log,
    [storage_get(0xA, 0, 10, out)] succeeds and [out] starts with "89",
    or with "123456789", followed by bytes that [storage_get]'s local
    buffer held before the read. *)
Lemma persistent_round_trip_is_shifted :
  Zfs.storage_set (RefLog.empty 4096) 10 10 (Some digits) =
    Returns PSA_SUCCESS log_digits
  /\ Zfs.storage_get 8 (blank 128) log_digits 10 0 10 (Some (blank 10)) =
       Returns PSA_SUCCESS (Some (bytes_of "89" ++ blank 8))
  /\ Zfs.storage_get 1 (blank 128) log_digits 10 0 10 (Some (blank 10)) =
       Returns PSA_SUCCESS (Some (bytes_of "123456789" ++ blank 1))
  /\ bytes_of "89" ++ blank 8 <> digits
  /\ bytes_of "123456789" ++ blank 1 <> digits.
Proof. repeat split; vm_compute; congruence. Qed.

(** C5, as the code has it. Volatile Table Store: a successful
    [storage_set(uid, len(bytes), bytes)] followed by
    [storage_get(uid, 0, len(bytes), out)] succeeds and [out] starts
    with [bytes]. Persistent Log Store, over a driver that keeps its
    records: after such a [storage_set], [storage_get(uid, 0, n, out)]
    skips the first [sizeof(its_obj_info_t)] bytes of the record; when
    the [n] bytes after them lie inside the record and inside the
    128-byte buffer it succeeds and [out] starts with those [n]
    bytes. *)
Theorem round_trip_per_backend
    (tbl tbl' : Volatile.storage_table_t)
    (FS : Type) (driver : Zfs.ZmsDriver FS) (fs fs' : FS)
    (sizeof_its_obj_info_t : Z) (stack_buf : list byte)
    (obj_uid : Z) (bytes out : list byte) (n : Z) :
  (Volatile.table_inv tbl ->
   Volatile.storage_set tbl obj_uid (Z.of_nat (length bytes)) (Some bytes) =
     Returns PSA_SUCCESS tbl' ->
   (length bytes <= length out)%nat ->
   Volatile.storage_get tbl' obj_uid 0 (Z.of_nat (length bytes)) (Some out) =
     Returns PSA_SUCCESS (Some (bytes ++ drop (length bytes) out)))
  /\ (Zfs.keeps_records FS ->
      Z.of_nat (length stack_buf) = Zfs.SIZEOF_BUF ->
      0 <= sizeof_its_obj_info_t ->
      Zfs.storage_set fs obj_uid (Z.of_nat (length bytes)) (Some bytes) =
        Returns PSA_SUCCESS fs' ->
      0 <= n -> sizeof_its_obj_info_t + n <= Z.of_nat (length bytes) ->
      sizeof_its_obj_info_t + n <= Zfs.SIZEOF_BUF ->
      n <= Z.of_nat (length out) ->
      Zfs.storage_get sizeof_its_obj_info_t stack_buf fs' obj_uid 0 n
        (Some out) =
        Returns PSA_SUCCESS
          (Some (take (Z.to_nat n)
                   (drop (Z.to_nat sizeof_its_obj_info_t) bytes)
                 ++ drop (Z.to_nat n) out))).
Proof.
  split.
  - apply volatile_round_trip.
  - apply layer_get_after_set.
Qed.

(** Both halves on "0123456789": the table gives the ten bytes back,
    the reference log behind an 8-byte header gives "89". *)
Lemma round_trip_per_backend_witness :
  Volatile.storage_get table_digits 10 0 10 (Some (blank 10)) =
    Returns PSA_SUCCESS (Some digits)
  /\ Zfs.storage_get 8 (blank 128) log_digits 10 0 2 (Some (blank 2)) =
       Returns PSA_SUCCESS (Some (bytes_of "89")).
Proof.
  split.
  - apply (proj1 (round_trip_per_backend Volatile.storage_init table_digits
                    RefLog.log RefLog.driver (RefLog.empty 4096) log_digits
                    8 (blank 128) 10 digits (blank 10) 2)
             storage_init_inv table_digits_set).
    simpl. lia.
  - apply (proj2 (round_trip_per_backend Volatile.storage_init table_digits
                    RefLog.log RefLog.driver (RefLog.empty 4096) log_digits
                    8 (blank 128) 10 digits (blank 2) 2)
             reflog_keeps_records);
      try reflexivity; try exact reflog_set_digits;
      unfold Zfs.SIZEOF_BUF; simpl; lia.
Defined.

End RoundTrip.

(** ** A storage_set that fails *)

Section FailedSet.

(** On the persistent backend a [storage_set] that returns
    [PSA_ERROR_IO_ERROR] can leave a changed store. The reference log
    with 4 bytes of room writes "0123" of "0123456789": [storage_set]
    reports the short write as an error, and [storage_get_info], which
    failed before, now succeeds. With "abc" stored and 2 bytes of room,
    the failed [storage_set] leaves "01" in place of "abc". *)
Lemma persistent_failed_set_is_observable :
  Zfs.storage_get_info (RefLog.empty 4) 10 (Some (blank 4)) 4 =
    Returns PSA_ERROR_IO_ERROR (Some (blank 4))
  /\ Zfs.storage_set (RefLog.empty 4) 10 10 (Some digits) =
       Returns PSA_ERROR_IO_ERROR (RefLog.mk_log {[10 := bytes_of "0123"]} 0)
  /\ Zfs.storage_get_info (RefLog.mk_log {[10 := bytes_of "0123"]} 0) 10
       (Some (blank 4)) 4 =
       Returns PSA_SUCCESS (Some (bytes_of "0123"))
  /\ Zfs.storage_get_info log_letters_tight 10 (Some (blank 3)) 3 =
       Returns PSA_SUCCESS (Some letters)
  /\ Zfs.storage_set log_letters_tight 10 10 (Some digits) =
       Returns PSA_ERROR_IO_ERROR (RefLog.mk_log {[10 := bytes_of "01"]} 0)
  /\ Zfs.storage_get_info (RefLog.mk_log {[10 := bytes_of "01"]} 0) 10
       (Some (blank 3)) 3 =
       Returns PSA_ERROR_IO_ERROR (Some (bytes_of "01" ++ blank 1)).
Proof. repeat split; vm_compute; reflexivity. Qed.

(** C8, as the code has it. Volatile Table Store: a [storage_set] that
    returns an error returns the table it was given. Persistent Log
    Store: a [storage_set] that returns [PSA_ERROR_INVALID_ARGUMENT] or
    [PSA_ERROR_INSUFFICIENT_STORAGE] made no driver call and leaves the
    file system as it was; one that returns [PSA_ERROR_IO_ERROR] leaves
    the file system the failed or short [zms_write] left, with nothing
    undone, which is the one it was given when the driver writes all
    or nothing. *)
Theorem failed_set_leaves_store
    (tbl tbl' : Volatile.storage_table_t)
    (FS : Type) (driver : Zfs.ZmsDriver FS) (fs fs' : FS)
    (obj_uid obj_length : Z) (p_obj : option (list byte))
    (st : psa_status_t) :
  st <> PSA_SUCCESS ->
  (Volatile.storage_set tbl obj_uid obj_length p_obj = Returns st tbl' ->
   tbl' = tbl)
  /\ (Zfs.storage_set fs obj_uid obj_length p_obj = Returns st fs' ->
      (st = PSA_ERROR_INVALID_ARGUMENT \/ st = PSA_ERROR_INSUFFICIENT_STORAGE ->
       fs' = fs)
      /\ (st = PSA_ERROR_IO_ERROR ->
          exists src,
            p_obj = Some src
            /\ fs' = snd (Zfs.zms_write fs obj_uid src obj_length)
            /\ (fst (Zfs.zms_write fs obj_uid src obj_length) < 0
                \/ fst (Zfs.zms_write fs obj_uid src obj_length) < obj_length))
      /\ (Zfs.writes_all_or_nothing FS -> fs' = fs)).
Proof.
  intros Hst. split.
  - intros Hset. eapply storage_set_error; eauto.
  - intros Hset.
    destruct (layer_set_cases fs obj_uid obj_length p_obj)
      as [[-> Hret] | [(src & -> & _ & Hret)
                      | (src & rc & fs1 & -> & _ & Hw
                         & [[Hrc Hret] | [_ Hret]])]];
      rewrite Hset in Hret; injection Hret as -> ->;
      try congruence.
    + repeat split; auto. discriminate.
    + repeat split; auto. discriminate.
    + split; [intros [?|?]; discriminate|]. split.
      * intros _. exists src. rewrite Hw. simpl. auto.
      * intros Hatomic. eapply Hatomic; eauto.
Qed.

(** A ninth uid on the full table, and the short write on the log
    with 4 bytes of room. *)
Lemma failed_set_leaves_store_witness :
  (Volatile.storage_set table_eight 9 3 (Some letters) =
     Returns PSA_ERROR_INSUFFICIENT_STORAGE table_eight
   /\ table_eight = table_eight)
  /\ (Zfs.storage_set (RefLog.empty 4) 10 10 (Some digits) =
        Returns PSA_ERROR_IO_ERROR (RefLog.mk_log {[10 := bytes_of "0123"]} 0)
      /\ exists src,
           Some digits = Some src
           /\ RefLog.mk_log {[10 := bytes_of "0123"]} 0 =
                snd (Zfs.zms_write (RefLog.empty 4) 10 src 10)
           /\ (fst (Zfs.zms_write (RefLog.empty 4) 10 src 10) < 0
               \/ fst (Zfs.zms_write (RefLog.empty 4) 10 src 10) < 10)).
Proof.
  assert (Volatile.storage_set table_eight 9 3 (Some letters) =
            Returns PSA_ERROR_INSUFFICIENT_STORAGE table_eight) as Hram
    by (vm_compute; reflexivity).
  assert (Zfs.storage_set (RefLog.empty 4) 10 10 (Some digits) =
            Returns PSA_ERROR_IO_ERROR
              (RefLog.mk_log {[10 := bytes_of "0123"]} 0)) as Hlog
    by (vm_compute; reflexivity).
  split; (split; [assumption|]).
  - exact (proj1 (failed_set_leaves_store table_eight table_eight
                    RefLog.log RefLog.driver (RefLog.empty 4) (RefLog.empty 4)
                    9 3 (Some letters) PSA_ERROR_INSUFFICIENT_STORAGE
                    ltac:(discriminate)) Hram).
  - exact (proj1 (proj2 (proj2 (failed_set_leaves_store table_eight table_eight
                    RefLog.log RefLog.driver (RefLog.empty 4)
                    (RefLog.mk_log {[10 := bytes_of "0123"]} 0)
                    10 10 (Some digits) PSA_ERROR_IO_ERROR
                    ltac:(discriminate)) Hlog)) eq_refl).
Defined.

End FailedSet.

(** ** What get_info hands out *)

Section GetInfo.

(** C1. After [storage_set(0xA, 10, "0123456789")], [storage_get_info]
    with a 4-byte buffer succeeds in both backends, and the buffer then
    holds the first four bytes of the object, "0123" (0x33323130 as a
    little-endian [uint32_t]), not the stored size 10. *)
Theorem get_info_hands_out_leading_bytes :
  Volatile.storage_set Volatile.storage_init 10 10 (Some digits) =
    Returns PSA_SUCCESS table_digits
  /\ Volatile.storage_get_info table_digits 10 (Some (blank 4)) 4 =
       Returns PSA_SUCCESS (Some (bytes_of "0123"))
  /\ Zfs.storage_set (RefLog.empty 4096) 10 10 (Some digits) =
       Returns PSA_SUCCESS log_digits
  /\ Zfs.storage_get_info log_digits 10 (Some (blank 4)) 4 =
       Returns PSA_SUCCESS (Some (bytes_of "0123"))
  /\ uint32_le (bytes_of "0123") = 858927408.
Proof. repeat split; vm_compute; reflexivity. Qed.

(** C6. [storage_set(0xA, 10, "0123456789")] and then
    [storage_set(0xA, 3, "abc")] leave slot 0 holding "abc" and 1021
    zero bytes; [storage_get_info] with a 3-byte buffer then hands out
    "abc" rather than the size 3, and with a 4-byte buffer it is
    refused. *)
Theorem overwrite_get_info_hands_out_leading_bytes :
  Volatile.storage_set Volatile.storage_init 10 10 (Some digits) =
    Returns PSA_SUCCESS table_digits
  /\ Volatile.storage_set table_digits 10 3 (Some letters) =
       Returns PSA_SUCCESS table_letters
  /\ Volatile.storage_get_info table_letters 10 (Some (blank 3)) 3 =
       Returns PSA_SUCCESS (Some letters)
  /\ Volatile.storage_get_info table_letters 10 (Some (blank 4)) 4 =
       Returns PSA_ERROR_INVALID_ARGUMENT (Some (blank 4)).
Proof. repeat split; vm_compute; reflexivity. Qed.

End GetInfo.

(** ** The window check of the persistent storage_get *)

Section WindowCheck.

Import Zfs.

(** C3. With offset 4294967295 and length 2 the [uint32_t] sum is 1:
    the window check accepts the call although the sum of the two
    numbers is far above 128; the 10-byte record of the reference log
    passes the length check (10 >= 1) although it is shorter than
    offset + length; and the copy then starts outside the 128-byte
    buffer, whatever [sizeof(its_obj_info_t)] is. The call returns
    neither [PSA_ERROR_INVALID_ARGUMENT] nor [PSA_ERROR_IO_ERROR]. *)
Theorem persistent_get_window_sum_wraps (sizeof_its_obj_info_t : Z) :
  SIZEOF_BUF < 4294967295 + 2
  /\ uint32_add 4294967295 2 = 1
  /\ window_too_large 4294967295 2 = false
  /\ zms_read log_digits 10 (blank 128) SIZEOF_BUF =
       (10, digits ++ blank 118)
  /\ storage_get sizeof_its_obj_info_t (blank 128) log_digits 10
       4294967295 2 (Some (blank 2)) = OutOfBounds.
Proof.
  assert (zms_read log_digits 10 (blank 128) SIZEOF_BUF =
            (10, digits ++ blank 118)) as Hread by (vm_compute; reflexivity).
  assert (window_too_large 4294967295 2 = false) as Hwin
    by (vm_compute; reflexivity).
  split; [unfold SIZEOF_BUF; lia|]. split; [vm_compute; reflexivity|].
  split; [exact Hwin|]. split; [exact Hread|].
  rewrite (layer_get_copy sizeof_its_obj_info_t (blank 128) log_digits 10
             4294967295 2 (blank 2) 10 _ Hwin Hread);
    [| lia | vm_compute; discriminate].
  rewrite copy_source_far; [reflexivity|].
  vm_compute. reflexivity.
Qed.

(** C9. The window check accepts offset 0 and length 128. With a
    128-byte record the copy then reads 128 bytes from
    [buf + sizeof(its_obj_info_t)], of which fewer than 128 lie in
    [buf] for every positive [sizeof(its_obj_info_t)]: the last index
    read is [sizeof(its_obj_info_t) + 127]. With offset 4294967295 and
    length 2, also accepted, the copy starts outside [buf]. *)
Theorem persistent_get_copy_leaves_buffer (header : positive) :
  window_too_large 0 128 = false
  /\ Z.of_nat (length (copy_source (Z.pos header)
                         (replicate 128 Byte.x5a) 0)) < 128
  /\ storage_get (Z.pos header) (blank 128) log_block 10 0 128
       (Some (blank 128)) = OutOfBounds
  /\ window_too_large 4294967295 2 = false
  /\ storage_get (Z.pos header) (blank 128) log_block 10 4294967295 2
       (Some (blank 2)) = OutOfBounds.
Proof.
  assert (zms_read log_block 10 (blank 128) SIZEOF_BUF =
            (128, replicate 128 Byte.x5a)) as Hread
    by (vm_compute; reflexivity).
  assert (Z.of_nat (length (copy_source (Z.pos header)
                              (replicate 128 Byte.x5a) 0)) < 128) as Hshort.
  { rewrite copy_source_length by lia. rewrite length_replicate. lia. }
  split; [vm_compute; reflexivity|]. split; [exact Hshort|].
  split; [|split; [vm_compute; reflexivity|]].
  - rewrite (layer_get_copy (Z.pos header) (blank 128) log_block 10
               0 128 (blank 128) 128 _ ltac:(vm_compute; reflexivity) Hread);
      [| lia | vm_compute; discriminate].
    rewrite memcpy_None; [reflexivity | exact Hshort].
  - rewrite (layer_get_copy (Z.pos header) (blank 128) log_block 10
               4294967295 2 (blank 2) 128 _ ltac:(vm_compute; reflexivity)
               Hread);
      [| lia | vm_compute; discriminate].
    rewrite copy_source_far; [reflexivity|].
    rewrite length_replicate. lia.
Qed.

End WindowCheck.

(** * Further properties of the two backends *)

Section PersistentWindow.

Import Zfs.

Context {FS : Type} `{!ZmsDriver FS}.

Variable sizeof_its_obj_info_t : Z.
Variable stack_buf : list byte.

(** X1. Persistent Log Store, for an offset and a length whose sum does
    not wrap (it is below 2^32): [storage_get] with a non-null [out]
    returns [PSA_ERROR_INVALID_ARGUMENT] when the sum is above 128, and
    [PSA_ERROR_IO_ERROR] when the sum is at most 128 and the driver
    read fewer bytes than the sum; so it returns [PSA_SUCCESS] only
    when the driver read at least offset + length bytes. *)
Theorem persistent_get_window_policy (fs : FS)
    (obj_uid obj_offset obj_length : Z) (out buf : list byte) (rc : Z) :
  0 <= obj_offset -> 0 <= obj_length ->
  obj_offset + obj_length < UINT32_MODULUS ->
  zms_read fs obj_uid stack_buf SIZEOF_BUF = (rc, buf) ->
  (SIZEOF_BUF < obj_offset + obj_length ->
   storage_get sizeof_its_obj_info_t stack_buf fs obj_uid
     obj_offset obj_length (Some out) =
     Returns PSA_ERROR_INVALID_ARGUMENT (Some out))
  /\ (obj_offset + obj_length <= SIZEOF_BUF ->
      rc < obj_offset + obj_length ->
      storage_get sizeof_its_obj_info_t stack_buf fs obj_uid
        obj_offset obj_length (Some out) =
        Returns PSA_ERROR_IO_ERROR (Some out))
  /\ (forall out',
        storage_get sizeof_its_obj_info_t stack_buf fs obj_uid
          obj_offset obj_length (Some out) = Returns PSA_SUCCESS out' ->
        obj_offset + obj_length <= SIZEOF_BUF
        /\ obj_offset + obj_length <= rc).
Proof.
  intros Hoff Hlen Hsum Hread.
  pose proof (window_too_large_iff obj_offset obj_length Hoff Hlen Hsum) as Hwin.
  assert (uint32_add obj_offset obj_length = obj_offset + obj_length) as Hadd
    by (unfold uint32_add; apply Z.mod_small; lia).
  split; [|split].
  - intros Hbig. apply layer_get_window. apply Hwin. exact Hbig.
  - intros Hsmall Hshort.
    apply (layer_get_short sizeof_its_obj_info_t stack_buf fs obj_uid
             obj_offset obj_length out rc buf); [| exact Hread | lia].
    destruct (window_too_large obj_offset obj_length); [|reflexivity].
    pose proof (proj1 Hwin eq_refl). lia.
  - intros out' Hok. unfold Zfs.storage_get in Hok.
    destruct (window_too_large obj_offset obj_length); [discriminate|].
    rewrite Hread in Hok.
    destruct (rc <? 0) eqn:E0; [discriminate|].
    destruct (rc <? uint32_add obj_offset obj_length) eqn:E1; [discriminate|].
    apply Z.ltb_ge in E1. rewrite Hadd in E1. split; [|exact E1].
    destruct (Z_le_gt_dec (obj_offset + obj_length) SIZEOF_BUF) as [Hle|Hgt];
      [exact Hle|].
    assert (false = true) as Habs by (apply Hwin; lia).
    discriminate.
Qed.

End PersistentWindow.

Section PersistentWindowExample.

(** On the 10-byte record of the reference log: the window (3, 200) is
    refused, the window (8, 10) is a short read. *)
Lemma persistent_get_window_policy_witness :
  Zfs.storage_get 8 (blank 128) log_digits 10 3 200 (Some (blank 200)) =
    Returns PSA_ERROR_INVALID_ARGUMENT (Some (blank 200))
  /\ Zfs.storage_get 8 (blank 128) log_digits 10 8 10 (Some (blank 10)) =
       Returns PSA_ERROR_IO_ERROR (Some (blank 10)).
Proof.
  assert (Zfs.zms_read log_digits 10 (blank 128) Zfs.SIZEOF_BUF =
            (10, digits ++ blank 118)) as Hread by (vm_compute; reflexivity).
  split.
  - apply (proj1 (persistent_get_window_policy 8 (blank 128) log_digits
                    10 3 200 (blank 200) _ 10 ltac:(lia) ltac:(lia)
                    ltac:(unfold UINT32_MODULUS; lia) Hread)).
    unfold Zfs.SIZEOF_BUF. lia.
  - apply (proj1 (proj2 (persistent_get_window_policy 8 (blank 128) log_digits
                    10 8 10 (blank 10) _ 10 ltac:(lia) ltac:(lia)
                    ltac:(unfold UINT32_MODULUS; lia) Hread)));
      unfold Zfs.SIZEOF_BUF; lia.
Defined.

End PersistentWindowExample.

Section VolatileOverwrite.

Import Volatile.

Lemma slot_image_whole (bytes : list byte) :
  slot_image bytes (Z.of_nat (length bytes)) =
    bytes ++ replicate (Z.to_nat (STORAGE_MAX_ITEM_SIZE
                                  - Z.of_nat (length bytes))) Byte.x00.
Proof.
  unfold slot_image. rewrite Nat2Z.id, take_ge by lia. reflexivity.
Qed.

(** X2. Volatile Table Store: after [storage_set(uid, A)] and a
    successful [storage_set(uid, B)], the slot of [uid] has size
    [len(B)] and its data is [B] followed by zero bytes up to 1024; a
    later [storage_get] on [uid] is refused for an offset above
    [len(B)] and otherwise hands out bytes of [B] only, so no byte of
    [A] can be read. *)
Theorem volatile_overwrite_replaces_object
    (tbl tbl1 tbl2 : storage_table_t) (obj_uid : Z) (A B : list byte)
    (st : psa_status_t) :
  table_inv tbl ->
  storage_set tbl obj_uid (Z.of_nat (length A)) (Some A) = Returns st tbl1 ->
  storage_set tbl1 obj_uid (Z.of_nat (length B)) (Some B) =
    Returns PSA_SUCCESS tbl2 ->
  (exists i,
     tbl2 !! i =
       Some (mk_entry true obj_uid (Z.of_nat (length B))
               (B ++ replicate (Z.to_nat (STORAGE_MAX_ITEM_SIZE
                                          - Z.of_nat (length B))) Byte.x00)))
  /\ forall obj_offset obj_length out,
       0 <= obj_offset -> 0 <= obj_length ->
       (Z.of_nat (length B) < obj_offset ->
        storage_get tbl2 obj_uid obj_offset obj_length (Some out) =
          Returns PSA_ERROR_INVALID_ARGUMENT (Some out))
       /\ (obj_offset <= Z.of_nat (length B) ->
           Z.min obj_length (Z.of_nat (length B) - obj_offset)
             <= Z.of_nat (length out) ->
           storage_get tbl2 obj_uid obj_offset obj_length (Some out) =
             Returns PSA_SUCCESS
               (Some (take (Z.to_nat (Z.min obj_length
                                        (Z.of_nat (length B) - obj_offset)))
                        (drop (Z.to_nat obj_offset) B)
                      ++ drop (Z.to_nat (Z.min obj_length
                                           (Z.of_nat (length B) - obj_offset)))
                           out))).
Proof.
  intros Hinv HsetA HsetB.
  pose proof (table_inv_storage_set _ _ _ _ _ _ Hinv HsetA) as Hinv1.
  apply storage_set_stores in HsetB
    as (src & i & [= <-] & Hlen & _ & Hinv2 & Hi); [|exact Hinv1].
  rewrite slot_image_whole in Hi.
  split; [exists i; exact Hi|].
  intros obj_offset obj_length out Hoff Hlenq. split.
  - intros Hbeyond.
    apply (storage_get_beyond tbl2 obj_uid i _ obj_offset obj_length out
             Hinv2 Hi eq_refl eq_refl). exact Hbeyond.
  - intros Hin Hout.
    rewrite (storage_get_within tbl2 obj_uid i _ obj_offset obj_length out
               Hinv2 Hi eq_refl eq_refl); simpl; try lia.
    do 3 f_equal.
    rewrite drop_app_le by lia.
    apply take_app_le. rewrite length_drop. lia.
Qed.

(** "abc" written over "0123456789": ten bytes asked for, "abc"
    received. *)
Lemma volatile_overwrite_replaces_object_witness :
  storage_get table_letters 10 0 10 (Some (blank 10)) =
    Returns PSA_SUCCESS (Some (letters ++ blank 7)).
Proof.
  destruct (volatile_overwrite_replaces_object storage_init table_digits
              table_letters 10 digits letters PSA_SUCCESS storage_init_inv
              table_digits_set ltac:(vm_compute; reflexivity)) as [_ Hget].
  apply (proj2 (Hget 0 10 (blank 10) ltac:(lia) ltac:(lia))); simpl; lia.
Defined.

End VolatileOverwrite.

Section GetInfoAfterSet.

(** X3. In both backends (the persistent one over a driver that keeps
    its records), a successful [storage_set(uid, len(bytes), bytes)]
    followed by [storage_get_info(uid, info, k)] with a non-null [info]
    of at least [k] bytes and [k <= len(bytes)] returns [PSA_SUCCESS]
    and leaves the first [k] bytes of [bytes] at the start of [info]. *)
Theorem get_info_after_set
    (tbl tbl' : Volatile.storage_table_t)
    (FS : Type) (driver : Zfs.ZmsDriver FS) (fs fs' : FS)
    (obj_uid : Z) (bytes info : list byte) (k : Z) :
  0 <= k <= Z.of_nat (length bytes) -> k <= Z.of_nat (length info) ->
  (Volatile.table_inv tbl ->
   Volatile.storage_set tbl obj_uid (Z.of_nat (length bytes)) (Some bytes) =
     Returns PSA_SUCCESS tbl' ->
   Volatile.storage_get_info tbl' obj_uid (Some info) k =
     Returns PSA_SUCCESS
       (Some (take (Z.to_nat k) bytes ++ drop (Z.to_nat k) info)))
  /\ (Zfs.keeps_records FS ->
      Zfs.storage_set fs obj_uid (Z.of_nat (length bytes)) (Some bytes) =
        Returns PSA_SUCCESS fs' ->
      Zfs.storage_get_info fs' obj_uid (Some info) k =
        Returns PSA_SUCCESS
          (Some (take (Z.to_nat k) bytes ++ drop (Z.to_nat k) info))).
Proof.
  intros Hk Hinfo. split.
  - intros Hinv Hset.
    apply storage_set_stores in Hset
      as (src & i & [= <-] & Hlen & _ & Hinv' & Hi); [|exact Hinv].
    rewrite (storage_get_info_within tbl' obj_uid i _ info k Hinv' Hi
               eq_refl eq_refl); simpl; try lia.
    do 3 f_equal. apply slot_image_take; lia.
  - intros Hkeeps Hset.
    set (len := Z.of_nat (length bytes)) in *.
    destruct (layer_set_cases fs obj_uid len (Some bytes))
      as [[? _] | [(src & _ & _ & Hret)
                  | (src & rc & fs1 & [= <-] & _ & Hw
                     & [[_ Hret] | [Hrc Hret]])]];
      try discriminate; try congruence.
    rewrite Hset in Hret. injection Hret as <-.
    pose proof (Hkeeps fs fs' obj_uid bytes len rc Hw ltac:(lia) ltac:(lia)
                  info k ltac:(lia)) as Hread.
    unfold Zfs.storage_get_info. rewrite Hread.
    replace (Z.min k len) with k by lia.
    rewrite (ltb_false k 0) by lia. rewrite (ltb_false k k) by lia.
    reflexivity.
Qed.

(** Three bytes of metadata asked for after "0123456789" was stored:
    "012" in both backends. *)
Lemma get_info_after_set_witness :
  Volatile.storage_get_info table_digits 10 (Some (blank 3)) 3 =
    Returns PSA_SUCCESS (Some (bytes_of "012"))
  /\ Zfs.storage_get_info log_digits 10 (Some (blank 3)) 3 =
       Returns PSA_SUCCESS (Some (bytes_of "012")).
Proof.
  destruct (get_info_after_set Volatile.storage_init table_digits
              RefLog.log RefLog.driver (RefLog.empty 4096) log_digits
              10 digits (blank 3) 3 ltac:(simpl; lia) ltac:(simpl; lia))
    as [Hram Hlog].
  split.
  - exact (Hram storage_init_inv table_digits_set).
  - exact (Hlog reflog_keeps_records reflog_set_digits).
Defined.

End GetInfoAfterSet.

Section VolatileAllocation.

Import Volatile.

(** X4. Every table reached from [storage_init] by [storage_set] and
    [storage_remove] calls has 8 slots, holds each uid in at most one
    slot in use, and records for every slot a size between 0 and
    1024. *)
Theorem reachable_table_one_slot_per_uid
    (written : list Z) (tbl : storage_table_t) :
  history written tbl ->
  Z.of_nat (length tbl) = STORAGE_MAX_ENTRIES
  /\ (forall i j ei ej,
        tbl !! i = Some ei -> tbl !! j = Some ej ->
        used ei = true -> used ej = true -> uid ei = uid ej -> i = j)
  /\ (forall i e, tbl !! i = Some e -> 0 <= size e <= STORAGE_MAX_ITEM_SIZE).
Proof.
  intros Hhist. pose proof (history_inv _ _ Hhist) as Hinv.
  split; [exact (inv_length tbl Hinv)|].
  split; [exact (inv_unique tbl Hinv) | exact (inv_size tbl Hinv)].
Qed.

Lemma reachable_table_one_slot_per_uid_witness :
  Z.of_nat (length table_eight) = STORAGE_MAX_ENTRIES.
Proof.
  exact (proj1 (reachable_table_one_slot_per_uid _ table_eight
                  table_eight_history)).
Defined.

(** X5. First fit: a successful [storage_set] for a uid that is not
    stored writes the free slot of lowest index and changes no other
    slot. *)
Theorem volatile_set_is_first_fit
    (tbl tbl' : storage_table_t) (obj_uid obj_length : Z)
    (p_obj : option (list byte)) :
  table_inv tbl -> ~ stored tbl obj_uid ->
  storage_set tbl obj_uid obj_length p_obj = Returns PSA_SUCCESS tbl' ->
  exists i e src,
    p_obj = Some src /\ tbl !! i = Some e /\ used e = false
    /\ (forall j y, tbl !! j = Some y -> (j < i)%nat -> used y = true)
    /\ tbl' = <[i := mk_entry true obj_uid obj_length
                       (slot_image src obj_length)]> tbl.
Proof.
  intros Hinv Hno Hset.
  apply storage_set_success in Hset
    as (src & i & e & -> & Hslot & Hi & _ & _ & ->); [|exact Hinv].
  exists i, e, src. split; [reflexivity|]. split; [exact Hi|].
  unfold set_slot in Hslot. rewrite find_entry_absent in Hslot by exact Hno.
  simpl in Hslot. unfold find_free_slot in Hslot.
  destruct (first_index_cases entry_free tbl)
    as [[Hnone _] | (k & y & Hk & Hky & Hfree & Hfirst)].
  { rewrite Hnone in Hslot. discriminate. }
  rewrite Hk in Hslot. rewrite (ltb_false (Z.of_nat k) 0) in Hslot by lia.
  assert (k = i) as -> by (apply Nat2Z.inj; congruence).
  assert (y = e) as -> by congruence.
  split; [apply entry_free_iff; exact Hfree|]. split; [|reflexivity].
  intros j z Hj Hlt. specialize (Hfirst j z Hj Hlt).
  destruct (used z) eqn:Hu; [reflexivity|].
  exfalso. apply Hfirst. apply entry_free_iff. exact Hu.
Qed.

(** The first object stored goes to slot 0. *)
Lemma volatile_set_is_first_fit_witness :
  exists i e src,
    Some digits = Some src /\ storage_init !! i = Some e /\ used e = false
    /\ (forall j y, storage_init !! j = Some y -> (j < i)%nat -> used y = true)
    /\ table_digits = <[i := mk_entry true 10 10 (slot_image src 10)]>
                        storage_init.
Proof.
  exact (volatile_set_is_first_fit storage_init table_digits 10 10
           (Some digits) storage_init_inv (storage_init_empty 10)
           table_digits_set).
Defined.

End VolatileAllocation.

(** ** The table as a store of independent objects *)

Section VolatileFrame.

Import Volatile.

Implicit Types (tbl : storage_table_t) (e : storage_entry_t).

(** Replacing a slot that does not satisfy [P] by one that does not
    either changes neither the answer of the scan nor the slot it
    finds. *)
Lemma first_index_insert (P : storage_entry_t -> Prop)
    `{!forall e, Decision (P e)} tbl i e e' :
  tbl !! i = Some e -> ~ P e -> ~ P e' ->
  first_index P (<[i := e']> tbl) = first_index P tbl
  /\ forall k, first_index P tbl = Z.of_nat k ->
       <[i := e']> tbl !! k = tbl !! k.
Proof.
  intros Hi HPe HPe'.
  assert (i < length tbl)%nat as Hlt by (eapply lookup_lt_Some; eauto).
  destruct (first_index_cases P tbl)
    as [[Hnone Hall] | (k & y & Hk & Hky & HPy & Hfirst)].
  - split; [|intros k Hk; lia]. rewrite Hnone. apply first_index_none.
    intros j z Hj. apply list_lookup_insert_Some in Hj
      as [(_ & <- & _) | (_ & Hj)]; eauto.
  - assert (i <> k) as Hne by (intros ->; congruence).
    split.
    + rewrite Hk. apply first_index_at with (e := y); auto.
      * rewrite list_lookup_insert_ne by exact Hne. exact Hky.
      * intros j z Hj Hjk. apply list_lookup_insert_Some in Hj
          as [(_ & <- & _) | (_ & Hj)]; eauto.
    + intros k' Hk'. assert (k' = k) as -> by lia.
      apply list_lookup_insert_ne. exact Hne.
Qed.

Lemma reads_of_other_uid tbl i e e' v :
  tbl !! i = Some e -> ~ entry_matches v e -> ~ entry_matches v e' ->
  (forall obj_offset obj_length p_obj,
     storage_get (<[i := e']> tbl) v obj_offset obj_length p_obj =
       storage_get tbl v obj_offset obj_length p_obj)
  /\ (forall p_obj_info obj_info_size,
        storage_get_info (<[i := e']> tbl) v p_obj_info obj_info_size =
          storage_get_info tbl v p_obj_info obj_info_size).
Proof.
  intros Hi He He'.
  destruct (first_index_insert (entry_matches v) tbl i e e' Hi He He')
    as [Hfind Hslot].
  assert (forall k, find_entry tbl v = Z.of_nat k ->
            <[i := e']> tbl !! Z.to_nat (find_entry tbl v) =
              tbl !! Z.to_nat (find_entry tbl v)) as Hsame.
  { intros k Hk. rewrite Hk, Nat2Z.id. apply Hslot. exact Hk. }
  split.
  - intros obj_offset obj_length p_obj. unfold storage_get.
    destruct p_obj as [out|]; [|reflexivity].
    unfold find_entry in *. rewrite Hfind.
    destruct (first_index (entry_matches v) tbl <? 0) eqn:E; [reflexivity|].
    apply Z.ltb_ge in E.
    rewrite (Hsame (Z.to_nat (first_index (entry_matches v) tbl))) by lia.
    reflexivity.
  - intros p_obj_info obj_info_size. unfold storage_get_info.
    unfold find_entry in *. rewrite Hfind.
    destruct (first_index (entry_matches v) tbl <? 0) eqn:E; [reflexivity|].
    apply Z.ltb_ge in E.
    rewrite (Hsame (Z.to_nat (first_index (entry_matches v) tbl))) by lia.
    reflexivity.
Qed.

(** The slot a returning [storage_set] or [storage_remove] on [u]
    rewrites held [u] or was free, and holds [u] or is free after. *)
Lemma write_touches_one_slot tbl tbl' u :
  table_inv tbl ->
  (exists obj_length p_obj st,
     storage_set tbl u obj_length p_obj = Returns st tbl')
  \/ (exists obj_size st, storage_remove tbl u obj_size = Returns st tbl') ->
  tbl' = tbl
  \/ exists i e e',
       tbl !! i = Some e /\ tbl' = <[i := e']> tbl
       /\ (forall v, v <> u -> ~ entry_matches v e /\ ~ entry_matches v e').
Proof.
  intros Hinv [(obj_length & p_obj & st & Hset) | (obj_size & st & Hrm)].
  - destruct (decide (st = PSA_SUCCESS)) as [->|Hst];
      [|left; eapply storage_set_error; eauto].
    apply storage_set_success in Hset
      as (src & i & e & _ & Hslot & Hi & _ & _ & ->); [|exact Hinv].
    right. exists i, e, (mk_entry true u obj_length (slot_image src obj_length)).
    split; [exact Hi|]. split; [reflexivity|].
    intros v Hne. rewrite !entry_matches_iff. simpl.
    destruct (set_slot_cases tbl u)
      as [(Hnone & _) | (k & y & Hk & Hky & Hwhy & _)]; [congruence|].
    assert (k = i) as -> by (apply Nat2Z.inj; congruence).
    assert (y = e) as -> by congruence.
    split; [|intros [_ ?]; congruence].
    intros [Hu Hid]. destruct Hwhy as [[_ ?] | [? _]]; congruence.
  - apply storage_remove_inv in Hrm
      as [(_ & -> & _) | (_ & i & e & Hi & Hu & Hid & ->)]; [left; reflexivity|].
    right. exists i, e, cleared_entry. split; [exact Hi|]. split; [reflexivity|].
    intros v Hne. rewrite !entry_matches_iff. simpl.
    split; [intros [_ ?]; congruence | intros [? _]; discriminate].
Qed.

(** X6. Volatile Table Store: a [storage_set] or [storage_remove] on
    one uid that returns, whatever its status, changes nothing that
    [storage_get] and [storage_get_info] return for any other uid. *)
Theorem volatile_write_leaves_other_uids
    (tbl tbl' : storage_table_t) (u v : Z) :
  table_inv tbl -> v <> u ->
  (exists obj_length p_obj st,
     storage_set tbl u obj_length p_obj = Returns st tbl')
  \/ (exists obj_size st, storage_remove tbl u obj_size = Returns st tbl') ->
  (forall obj_offset obj_length p_obj,
     storage_get tbl' v obj_offset obj_length p_obj =
       storage_get tbl v obj_offset obj_length p_obj)
  /\ (forall p_obj_info obj_info_size,
        storage_get_info tbl' v p_obj_info obj_info_size =
          storage_get_info tbl v p_obj_info obj_info_size).
Proof.
  intros Hinv Hne Hwrite.
  destruct (write_touches_one_slot tbl tbl' u Hinv Hwrite)
    as [-> | (i & e & e' & Hi & -> & Hother)]; [auto|].
  destruct (Hother v Hne) as [He He'].
  apply (reads_of_other_uid tbl i e e' v Hi He He').
Qed.

(** "abc" is written under 0xB, beside "0123456789" under 0xA: the
    digits read as before. *)
Lemma volatile_write_leaves_other_uids_witness :
  storage_get
    (<[1%nat := mk_entry true 11 3 (slot_image letters 3)]> table_digits)
    10 3 4 (Some (blank 4)) =
    Returns PSA_SUCCESS (Some (bytes_of "3456")).
Proof.
  assert (storage_set table_digits 11 3 (Some letters) =
            Returns PSA_SUCCESS
              (<[1%nat := mk_entry true 11 3 (slot_image letters 3)]>
                 table_digits)) as Hset by (vm_compute; reflexivity).
  rewrite (proj1 (volatile_write_leaves_other_uids table_digits _ 11 10
                    table_digits_inv ltac:(lia)
                    (or_introl (ex_intro _ 3 (ex_intro _ (Some letters)
                       (ex_intro _ PSA_SUCCESS Hset)))))).
  vm_compute. reflexivity.
Defined.

End VolatileFrame.

(** ** Writing twice, and writing then removing *)

Section VolatileCompose.

Import Volatile.

Implicit Types (tbl : storage_table_t) (e : storage_entry_t).

(** After a successful [storage_set] the uid is assigned the slot that
    was written. *)
Lemma set_slot_after_set tbl obj_uid i e obj_length d :
  table_inv (<[i := mk_entry true obj_uid obj_length d]> tbl) ->
  tbl !! i = Some e ->
  set_slot (<[i := mk_entry true obj_uid obj_length d]> tbl) obj_uid =
    Some (Z.of_nat i).
Proof.
  intros Hinv' Hi.
  assert (i < length tbl)%nat as Hlt by (eapply lookup_lt_Some; eauto).
  unfold set_slot.
  rewrite (find_entry_unique _ obj_uid i (mk_entry true obj_uid obj_length d)
             Hinv'); try reflexivity.
  - rewrite (ltb_false (Z.of_nat i) 0) by lia. reflexivity.
  - apply list_lookup_insert_eq. exact Hlt.
Qed.

(** X7. Volatile Table Store: once [storage_set(uid, A)] has
    succeeded, a [storage_set(uid, B)] with a valid length and buffer
    returns exactly what it returns on the table before [A] was
    written: success and the same table, slot for slot and byte for
    byte. Nothing of [A] is left anywhere in the table. *)
Theorem volatile_overwrite_equals_direct_write
    (tbl tbl1 : storage_table_t) (obj_uid len_a len_b : Z)
    (p_a : option (list byte)) (B : list byte) :
  table_inv tbl ->
  storage_set tbl obj_uid len_a p_a = Returns PSA_SUCCESS tbl1 ->
  0 <= len_b <= STORAGE_MAX_ITEM_SIZE -> len_b <= Z.of_nat (length B) ->
  storage_set tbl1 obj_uid len_b (Some B) =
    storage_set tbl obj_uid len_b (Some B)
  /\ exists tbl2,
       storage_set tbl obj_uid len_b (Some B) = Returns PSA_SUCCESS tbl2.
Proof.
  intros Hinv Hset Hlen Hsrc.
  pose proof (table_inv_storage_set _ _ _ _ _ _ Hinv Hset) as Hinv1.
  apply storage_set_success in Hset
    as (src & i & e & _ & Hslot & Hi & Hlena & Hsrca & ->); [|exact Hinv].
  assert (i < length tbl)%nat as Hlt by (eapply lookup_lt_Some; eauto).
  rewrite (storage_set_ok tbl obj_uid len_b B i e Hslot Hi); auto;
    [| exact (inv_data tbl Hinv i e Hi)].
  split; [|eauto].
  rewrite (storage_set_ok _ obj_uid len_b B i
             (mk_entry true obj_uid len_a (slot_image src len_a))); auto.
  - rewrite list_insert_insert_eq. reflexivity.
  - eapply set_slot_after_set; eauto.
  - apply list_lookup_insert_eq. exact Hlt.
  - simpl. apply slot_image_length; assumption.
Qed.

(** "abc" over "0123456789" gives the table "abc" alone gives. *)
Lemma volatile_overwrite_equals_direct_write_witness :
  storage_set table_digits 10 3 (Some letters) =
    storage_set storage_init 10 3 (Some letters).
Proof.
  exact (proj1 (volatile_overwrite_equals_direct_write storage_init
                  table_digits 10 10 3 (Some digits) letters
                  storage_init_inv table_digits_set
                  ltac:(unfold STORAGE_MAX_ITEM_SIZE; lia)
                  ltac:(simpl; lia))).
Defined.

(** X9. Volatile Table Store: storing a uid that was not stored and
    then removing it succeeds and brings the table back to what it was,
    except that the data bytes of the one slot that was free and used
    in between are now zero; the same uids are stored as before. *)
Theorem volatile_set_then_remove_restores
    (tbl tbl1 : storage_table_t) (obj_uid obj_length obj_size : Z)
    (p_obj : option (list byte)) :
  table_inv tbl -> ~ stored tbl obj_uid ->
  storage_set tbl obj_uid obj_length p_obj = Returns PSA_SUCCESS tbl1 ->
  exists i e,
    tbl !! i = Some e /\ used e = false
    /\ storage_remove tbl1 obj_uid obj_size =
         Returns PSA_SUCCESS (<[i := cleared_entry]> tbl)
    /\ forall v, stored (<[i := cleared_entry]> tbl) v <-> stored tbl v.
Proof.
  intros Hinv Hno Hset.
  pose proof (table_inv_storage_set _ _ _ _ _ _ Hinv Hset) as Hinv1.
  apply storage_set_success in Hset
    as (src & i & e & _ & Hslot & Hi & _ & _ & ->); [|exact Hinv].
  assert (i < length tbl)%nat as Hlt by (eapply lookup_lt_Some; eauto).
  assert (used e = false) as Hfree.
  { destruct (set_slot_cases tbl obj_uid)
      as [(Hnone & _) | (k & y & Hk & Hky & Hwhy & _)]; [congruence|].
    assert (k = i) as -> by (apply Nat2Z.inj; congruence).
    assert (y = e) as -> by congruence.
    destruct Hwhy as [[Hu Hid] | [Hu _]]; [|exact Hu].
    exfalso. apply Hno. exists i, e. auto. }
  exists i, e. split; [exact Hi|]. split; [exact Hfree|]. split.
  - unfold storage_remove.
    rewrite (find_entry_unique _ obj_uid i _ Hinv1
               (list_lookup_insert_eq _ _ _ Hlt) eq_refl eq_refl).
    rewrite (ltb_false (Z.of_nat i) 0) by lia.
    rewrite Nat2Z.id, list_insert_insert_eq. reflexivity.
  - intros v. split.
    + intros Hst. apply stored_insert in Hst as [[Hu _] | Hst];
        [discriminate | exact Hst].
    + intros (j & y & Hj & Hu & Hid). exists j, y.
      rewrite list_lookup_insert_ne by (intros ->; congruence). auto.
Qed.

Lemma volatile_set_then_remove_restores_witness :
  exists i e,
    storage_init !! i = Some e /\ used e = false
    /\ storage_remove table_digits 10 10 =
         Returns PSA_SUCCESS (<[i := cleared_entry]> storage_init)
    /\ forall v, stored (<[i := cleared_entry]> storage_init) v
                 <-> stored storage_init v.
Proof.
  exact (volatile_set_then_remove_restores storage_init table_digits
           10 10 10 (Some digits) storage_init_inv (storage_init_empty 10)
           table_digits_set).
Defined.

End VolatileCompose.

(** ** Counting the slots in use *)

Section VolatileAccounting.

Import Volatile.

Implicit Types (tbl : storage_table_t) (e : storage_entry_t).

Lemma slots_in_use_cons e tbl :
  slots_in_use (e :: tbl) = slot_weight e + slots_in_use tbl.
Proof.
  unfold slots_in_use, slot_weight. rewrite filter_cons.
  destruct (used e); case_decide; simpl length; try congruence; lia.
Qed.

Lemma slots_in_use_bounds tbl :
  0 <= slots_in_use tbl <= Z.of_nat (length tbl).
Proof.
  induction tbl as [|e tbl IH]; [unfold slots_in_use; simpl; lia|].
  rewrite slots_in_use_cons. unfold slot_weight. simpl length.
  destruct (used e); lia.
Qed.

Lemma slots_in_use_insert tbl i e e' :
  tbl !! i = Some e ->
  slots_in_use (<[i := e']> tbl) =
    slots_in_use tbl - slot_weight e + slot_weight e'.
Proof.
  revert i. induction tbl as [|x tbl IH]; intros i Hi; [discriminate|].
  destruct i as [|i]; simpl in *.
  - injection Hi as ->. rewrite !slots_in_use_cons. lia.
  - rewrite !slots_in_use_cons, (IH i Hi). lia.
Qed.

(** Every slot is in use exactly when the count is the table length. *)
Lemma full_iff_count tbl :
  full tbl <-> slots_in_use tbl = Z.of_nat (length tbl).
Proof.
  induction tbl as [|e tbl IH].
  - split; [reflexivity | intros _ i e Hi; discriminate].
  - rewrite slots_in_use_cons. simpl length.
    pose proof (slots_in_use_bounds tbl) as Hb. unfold slot_weight. split.
    + intros Hfull. rewrite (Hfull 0%nat e eq_refl).
      assert (full tbl) as Hrest by (intros i y Hi; exact (Hfull (S i) y Hi)).
      apply IH in Hrest. lia.
    + intros Hcount. destruct (used e) eqn:Hu; [|lia].
      assert (full tbl) as Hrest by (apply IH; lia).
      intros [|i] y Hi; simpl in Hi; [congruence | eauto].
Qed.

(** X8. Volatile Table Store, slot accounting on a table that
    satisfies the invariant: at most 8 slots are in use; a successful
    [storage_set] adds one slot in use when the uid was not stored and
    none when it was; a successful [storage_remove] frees one; and a
    [storage_set] of a uid that is not stored, with a valid length and
    buffer, succeeds exactly when fewer than 8 slots are in use. *)
Theorem volatile_slot_accounting (tbl : storage_table_t) (obj_uid : Z) :
  table_inv tbl ->
  0 <= slots_in_use tbl <= STORAGE_MAX_ENTRIES
  /\ (forall obj_length p_obj tbl',
        storage_set tbl obj_uid obj_length p_obj = Returns PSA_SUCCESS tbl' ->
        (stored tbl obj_uid -> slots_in_use tbl' = slots_in_use tbl)
        /\ (~ stored tbl obj_uid -> slots_in_use tbl' = slots_in_use tbl + 1))
  /\ (forall obj_size tbl',
        storage_remove tbl obj_uid obj_size = Returns PSA_SUCCESS tbl' ->
        slots_in_use tbl' = slots_in_use tbl - 1)
  /\ (forall obj_length src,
        ~ stored tbl obj_uid ->
        0 <= obj_length <= STORAGE_MAX_ITEM_SIZE ->
        obj_length <= Z.of_nat (length src) ->
        (exists tbl',
           storage_set tbl obj_uid obj_length (Some src) =
             Returns PSA_SUCCESS tbl')
        <-> slots_in_use tbl < STORAGE_MAX_ENTRIES).
Proof.
  intros Hinv. pose proof (slots_in_use_bounds tbl) as Hb.
  pose proof (inv_length tbl Hinv) as Hlen8.
  split; [lia|]. split; [|split].
  - intros obj_length p_obj tbl' Hset.
    apply storage_set_success in Hset
      as (src & i & e & _ & Hslot & Hi & _ & _ & ->); [|exact Hinv].
    rewrite (slots_in_use_insert tbl i e _ Hi). unfold slot_weight. simpl.
    destruct (set_slot_cases tbl obj_uid)
      as [(Hnone & _) | (k & y & Hk & Hky & Hwhy & _)]; [congruence|].
    assert (k = i) as -> by (apply Nat2Z.inj; congruence).
    assert (y = e) as -> by congruence.
    destruct Hwhy as [[Hu Hid] | [Hu Hno]]; rewrite Hu; split;
      intros Hst; try lia; try contradiction.
    exfalso. apply Hst. exists i, e. auto.
  - intros obj_size tbl' Hrm.
    apply storage_remove_inv in Hrm
      as [(? & _) | (_ & i & e & Hi & Hu & _ & ->)]; [discriminate|].
    rewrite (slots_in_use_insert tbl i e _ Hi). unfold slot_weight.
    rewrite Hu. simpl. lia.
  - intros obj_length src Hno Hlen Hsrc. split.
    + intros [tbl' Hset].
      destruct (Z.eq_dec (slots_in_use tbl) STORAGE_MAX_ENTRIES) as [Heq|]; [|lia].
      assert (full tbl) as Hfull by (apply full_iff_count; lia).
      rewrite full_set_new_uid in Hset by assumption. discriminate.
    + intros Hroom.
      destruct (set_slot_cases tbl obj_uid)
        as [(_ & _ & Hfull) | (i & e & Hslot & Hi & _)].
      * apply full_iff_count in Hfull. lia.
      * eexists. apply (storage_set_ok tbl obj_uid obj_length src i e); auto.
        exact (inv_data tbl Hinv i e Hi).
Qed.

(** One slot in use after the first write, eight in the full table. *)
Lemma volatile_slot_accounting_witness :
  slots_in_use table_digits = 1
  /\ slots_in_use table_eight = STORAGE_MAX_ENTRIES
  /\ 0 <= slots_in_use table_digits <= STORAGE_MAX_ENTRIES.
Proof.
  split; [reflexivity|]. split; [reflexivity|].
  exact (proj1 (volatile_slot_accounting table_digits 10 table_digits_inv)).
Defined.

End VolatileAccounting.

(** ** Argument checks and the caller's buffer *)

Section ArgumentChecks.

(** X10. The argument checks of the two backends and their order. A
    null [p_obj] makes [storage_set] and [storage_get] return
    [PSA_ERROR_INVALID_ARGUMENT] before anything else is looked at, in
    both backends, and the store is left as it was. A length above 1024
    with a non-null [p_obj] makes [storage_set] return
    [PSA_ERROR_INSUFFICIENT_STORAGE] and leave the store as it was, in
    both backends, also for a uid that is stored. [storage_get_info]
    with a null [p_obj_info] differs: the table backend looks the uid
    up first and returns [PSA_ERROR_DOES_NOT_EXIST] for a uid that is
    not stored, [PSA_ERROR_INVALID_ARGUMENT] for one that is; the
    persistent backend returns [PSA_ERROR_INVALID_ARGUMENT] without
    reading. *)
Theorem argument_checks_and_their_order
    (tbl : Volatile.storage_table_t)
    (FS : Type) (driver : Zfs.ZmsDriver FS) (fs : FS)
    (sizeof_its_obj_info_t : Z) (stack_buf src : list byte)
    (obj_uid obj_offset obj_length obj_info_size : Z) :
  (Volatile.storage_set tbl obj_uid obj_length None =
     Returns PSA_ERROR_INVALID_ARGUMENT tbl
   /\ Zfs.storage_set fs obj_uid obj_length None =
        Returns PSA_ERROR_INVALID_ARGUMENT fs
   /\ Volatile.storage_get tbl obj_uid obj_offset obj_length None =
        Returns PSA_ERROR_INVALID_ARGUMENT None
   /\ Zfs.storage_get sizeof_its_obj_info_t stack_buf fs obj_uid
        obj_offset obj_length None =
        Returns PSA_ERROR_INVALID_ARGUMENT None)
  /\ (Volatile.STORAGE_MAX_ITEM_SIZE < obj_length ->
      Volatile.storage_set tbl obj_uid obj_length (Some src) =
        Returns PSA_ERROR_INSUFFICIENT_STORAGE tbl
      /\ Zfs.storage_set fs obj_uid obj_length (Some src) =
           Returns PSA_ERROR_INSUFFICIENT_STORAGE fs)
  /\ (~ Volatile.stored tbl obj_uid ->
      Volatile.storage_get_info tbl obj_uid None obj_info_size =
        Returns PSA_ERROR_DOES_NOT_EXIST None)
  /\ (Volatile.stored tbl obj_uid ->
      Volatile.storage_get_info tbl obj_uid None obj_info_size =
        Returns PSA_ERROR_INVALID_ARGUMENT None)
  /\ Zfs.storage_get_info fs obj_uid None obj_info_size =
       Returns PSA_ERROR_INVALID_ARGUMENT None.
Proof.
  split; [repeat split|]. split; [|split; [|split; [|reflexivity]]].
  - intros Hbig. unfold Volatile.storage_set, Zfs.storage_set.
    unfold Volatile.STORAGE_MAX_ITEM_SIZE, Zfs.STORAGE_MAX_ITEM_SIZE in *.
    rewrite gtb_true by exact Hbig. split; reflexivity.
  - intros Hno. apply storage_get_info_absent. exact Hno.
  - intros Hst. unfold Volatile.storage_get_info.
    destruct (find_entry_present tbl obj_uid Hst) as (i & e & -> & Hi & _).
    rewrite (ltb_false (Z.of_nat i) 0) by lia. rewrite Nat2Z.id, Hi.
    reflexivity.
Qed.

(** A length of 1025 on the table that holds 0xA: refused, although the
    uid has its slot; a null info buffer for 0xA and for 0xB. *)
Lemma argument_checks_and_their_order_witness :
  Volatile.storage_set table_digits 10 1025 (Some digits) =
    Returns PSA_ERROR_INSUFFICIENT_STORAGE table_digits
  /\ Volatile.storage_get_info table_digits 10 None 4 =
       Returns PSA_ERROR_INVALID_ARGUMENT None
  /\ Volatile.storage_get_info table_digits 11 None 4 =
       Returns PSA_ERROR_DOES_NOT_EXIST None.
Proof.
  split; [|split].
  - apply (proj1 (proj2 (argument_checks_and_their_order table_digits
                           RefLog.log RefLog.driver log_digits 8 (blank 128)
                           digits 10 0 1025 4))).
    unfold Volatile.STORAGE_MAX_ITEM_SIZE. lia.
  - apply (proj1 (proj2 (proj2 (proj2 (argument_checks_and_their_order
             table_digits RefLog.log RefLog.driver log_digits 8 (blank 128)
             digits 10 0 10 4))))).
    exists 0%nat, (Volatile.mk_entry true 10 10 (Volatile.slot_image digits 10)).
    auto.
  - apply (proj1 (proj2 (proj2 (argument_checks_and_their_order
             table_digits RefLog.log RefLog.driver log_digits 8 (blank 128)
             digits 11 0 10 4)))).
    apply (history_never_written _ _ 11 table_digits_history).
    intros Hin. apply elem_of_cons in Hin as [Hin|Hin];
      [discriminate | apply elem_of_nil in Hin; exact Hin].
Defined.

End ArgumentChecks.

Section BufferOnFailure.

(** X11. The caller's buffer when a read fails. [storage_get] of both
    backends and [storage_get_info] of the table backend return the
    buffer as they received it whenever they return an error. The
    persistent [storage_get_info] does not: after a successful
    [storage_set] of [bytes] over a driver that keeps its records, a
    [storage_get_info] that asks for more bytes than were stored
    returns [PSA_ERROR_IO_ERROR] with the stored bytes already copied
    over the start of the buffer. *)
Theorem buffer_after_failed_read
    (tbl : Volatile.storage_table_t)
    (FS : Type) (driver : Zfs.ZmsDriver FS) (fs fs' : FS)
    (sizeof_its_obj_info_t : Z) (stack_buf bytes out : list byte)
    (obj_uid obj_offset obj_length : Z)
    (st : psa_status_t) (o : option (list byte)) :
  st <> PSA_SUCCESS ->
  (Volatile.storage_get tbl obj_uid obj_offset obj_length (Some out) =
     Returns st o -> o = Some out)
  /\ (Volatile.storage_get_info tbl obj_uid (Some out) obj_length =
        Returns st o -> o = Some out)
  /\ (Zfs.storage_get sizeof_its_obj_info_t stack_buf fs obj_uid
        obj_offset obj_length (Some out) = Returns st o -> o = Some out)
  /\ (Zfs.keeps_records FS ->
      Zfs.storage_set fs obj_uid (Z.of_nat (length bytes)) (Some bytes) =
        Returns PSA_SUCCESS fs' ->
      Z.of_nat (length bytes) < obj_length <= Z.of_nat (length out) ->
      Zfs.storage_get_info fs' obj_uid (Some out) obj_length =
        Returns PSA_ERROR_IO_ERROR
          (Some (bytes ++ drop (length bytes) out))).
Proof.
  intros Hst. split; [|split; [|split]].
  - unfold Volatile.storage_get. intros H.
    destruct (Volatile.find_entry tbl obj_uid <? 0); [congruence|].
    destruct (tbl !! _) as [e|]; [|discriminate].
    destruct (obj_offset >? Volatile.size e); [congruence|].
    destruct (_ >? 0); [|congruence].
    destruct (memcpy out _ _); [congruence | discriminate].
  - unfold Volatile.storage_get_info. intros H.
    destruct (Volatile.find_entry tbl obj_uid <? 0); [congruence|].
    destruct (tbl !! _) as [e|]; [|discriminate].
    destruct (obj_length >? Volatile.size e); [congruence|].
    destruct (memcpy out _ _); [congruence | discriminate].
  - unfold Zfs.storage_get. intros H.
    destruct (Zfs.window_too_large obj_offset obj_length); [congruence|].
    destruct (Zfs.zms_read fs obj_uid stack_buf Zfs.SIZEOF_BUF) as [rc buf].
    destruct (rc <? 0); [congruence|].
    destruct (rc <? uint32_add obj_offset obj_length); [congruence|].
    destruct (memcpy out _ _); [congruence | discriminate].
  - intros Hkeeps Hset Hlen.
    set (len := Z.of_nat (length bytes)) in *.
    destruct (layer_set_cases fs obj_uid len (Some bytes))
      as [[? _] | [(src & _ & _ & Hret)
                  | (src & rc & fs1 & [= <-] & _ & Hw
                     & [[_ Hret] | [Hrc Hret]])]];
      try discriminate; try congruence.
    rewrite Hset in Hret. injection Hret as <-.
    pose proof (Hkeeps fs fs' obj_uid bytes len rc Hw ltac:(lia) ltac:(lia)
                  out obj_length ltac:(lia)) as Hread.
    unfold Zfs.storage_get_info. rewrite Hread.
    replace (Z.min obj_length len) with len by lia.
    rewrite (ltb_false len 0) by lia.
    rewrite (proj2 (Z.ltb_lt len obj_length)) by lia.
    unfold len. rewrite Nat2Z.id, take_ge by lia. reflexivity.
Qed.

(** Twelve bytes of metadata asked for where ten are stored: an error,
    and the ten bytes are in the buffer. *)
Lemma buffer_after_failed_read_witness :
  Zfs.storage_get_info log_digits 10 (Some (blank 12)) 12 =
    Returns PSA_ERROR_IO_ERROR (Some (digits ++ blank 2)).
Proof.
  apply (proj2 (proj2 (proj2 (buffer_after_failed_read table_digits
           RefLog.log RefLog.driver (RefLog.empty 4096) log_digits
           8 (blank 128) digits (blank 12) 10 0 12
           PSA_ERROR_IO_ERROR None ltac:(discriminate))))
         reflog_keeps_records reflog_set_digits).
  simpl. lia.
Defined.

End BufferOnFailure.

(** ** Where the persistent storage_get copies from *)

Section PersistentCopy.

Import Zfs.

Context {FS : Type} `{!ZmsDriver FS}.

Variable sizeof_its_obj_info_t : Z.
Variable stack_buf : list byte.

Lemma copy_source_in_range buf obj_offset :
  0 <= sizeof_its_obj_info_t -> 0 <= obj_offset ->
  sizeof_its_obj_info_t + obj_offset <= Z.of_nat (length buf) ->
  copy_source sizeof_its_obj_info_t buf obj_offset =
    drop (Z.to_nat (sizeof_its_obj_info_t + obj_offset)) buf.
Proof.
  intros Hs Ho Hin. unfold copy_source.
  rewrite (advance_in_range buf) by lia.
  rewrite advance_in_range by (rewrite length_drop; lia).
  rewrite drop_drop. f_equal. lia.
Qed.

(** The copy of [storage_get] once both checks have passed, when the
    bytes it reads lie in [buf]. *)
Lemma layer_get_in_bounds (fs : FS) obj_uid obj_offset obj_length out rc buf :
  zms_read fs obj_uid stack_buf SIZEOF_BUF = (rc, buf) ->
  0 <= sizeof_its_obj_info_t -> 0 <= obj_offset -> 0 <= obj_length ->
  obj_offset + obj_length <= SIZEOF_BUF -> obj_offset + obj_length <= rc ->
  sizeof_its_obj_info_t + obj_offset + obj_length <= Z.of_nat (length buf) ->
  obj_length <= Z.of_nat (length out) ->
  storage_get sizeof_its_obj_info_t stack_buf fs obj_uid
    obj_offset obj_length (Some out) =
    Returns PSA_SUCCESS
      (Some (take (Z.to_nat obj_length)
               (drop (Z.to_nat (sizeof_its_obj_info_t + obj_offset)) buf)
             ++ drop (Z.to_nat obj_length) out)).
Proof.
  intros Hread Hs Ho Hl Hwin Hrc Hin Hout. unfold SIZEOF_BUF in *.
  assert (uint32_add obj_offset obj_length = obj_offset + obj_length) as Hadd
    by (unfold uint32_add, UINT32_MODULUS; apply Z.mod_small; lia).
  assert (window_too_large obj_offset obj_length = false) as Hw.
  { unfold window_too_large. rewrite Hadd. apply gtb_false.
    unfold SIZEOF_BUF. lia. }
  rewrite (layer_get_copy sizeof_its_obj_info_t stack_buf fs obj_uid
             obj_offset obj_length out rc buf Hw Hread); [| lia | lia].
  rewrite copy_source_in_range by lia.
  rewrite memcpy_Some; [reflexivity | lia | | exact Hout].
  rewrite length_drop. lia.
Qed.

(** X12. Persistent Log Store: for a window that passes both checks of
    [storage_get] (offset + length at most 128 and at most the count
    the driver read into its 128-byte buffer) and a length of at least
    one byte, the copy stays inside the buffer exactly when
    [sizeof(its_obj_info_t) + offset + length <= 128]: then the call
    returns [PSA_SUCCESS] with the bytes of the buffer from index
    [sizeof(its_obj_info_t) + offset] on; otherwise it reads beyond the
    buffer. *)
Theorem persistent_get_copy_bounds (fs : FS)
    (obj_uid obj_offset obj_length rc : Z) (out buf : list byte) :
  zms_read fs obj_uid stack_buf SIZEOF_BUF = (rc, buf) ->
  Z.of_nat (length buf) = SIZEOF_BUF ->
  0 <= sizeof_its_obj_info_t -> 0 <= obj_offset -> 1 <= obj_length ->
  obj_offset + obj_length <= SIZEOF_BUF -> obj_offset + obj_length <= rc ->
  obj_length <= Z.of_nat (length out) ->
  (sizeof_its_obj_info_t + obj_offset + obj_length <= SIZEOF_BUF ->
   storage_get sizeof_its_obj_info_t stack_buf fs obj_uid
     obj_offset obj_length (Some out) =
     Returns PSA_SUCCESS
       (Some (take (Z.to_nat obj_length)
                (drop (Z.to_nat (sizeof_its_obj_info_t + obj_offset)) buf)
              ++ drop (Z.to_nat obj_length) out)))
  /\ (SIZEOF_BUF < sizeof_its_obj_info_t + obj_offset + obj_length ->
      storage_get sizeof_its_obj_info_t stack_buf fs obj_uid
        obj_offset obj_length (Some out) = OutOfBounds).
Proof.
  intros Hread Hbuf Hs Ho Hl Hwin Hrc Hout. split.
  - intros Hin. eapply layer_get_in_bounds; eauto; lia.
  - intros Hbeyond. unfold SIZEOF_BUF in *.
    assert (uint32_add obj_offset obj_length = obj_offset + obj_length) as Hadd
      by (unfold uint32_add, UINT32_MODULUS; apply Z.mod_small; lia).
    assert (window_too_large obj_offset obj_length = false) as Hw.
    { unfold window_too_large. rewrite Hadd. apply gtb_false.
      unfold SIZEOF_BUF. lia. }
    rewrite (layer_get_copy sizeof_its_obj_info_t stack_buf fs obj_uid
               obj_offset obj_length out rc buf Hw Hread); [| lia | lia].
    rewrite memcpy_None; [reflexivity|].
    rewrite copy_source_length by lia. lia.
Qed.

(** X13. Persistent Log Store, over a driver that keeps its records:
    after a successful [storage_set] of [bytes], a [storage_get] whose
    window passes both checks and whose copy stays inside the buffer
    returns [PSA_SUCCESS] and hands out the bytes from index
    [sizeof(its_obj_info_t) + offset] of the buffer, which holds the
    first [min 128 len(bytes)] bytes of the record followed by what
    the local array held before the read: bytes of the window that lie
    behind the record come from the uninitialised array. *)
Theorem persistent_get_after_set_window (fs fs' : FS)
    (obj_uid obj_offset obj_length : Z) (bytes out : list byte) :
  keeps_records FS ->
  Z.of_nat (length stack_buf) = SIZEOF_BUF ->
  0 <= sizeof_its_obj_info_t ->
  storage_set fs obj_uid (Z.of_nat (length bytes)) (Some bytes) =
    Returns PSA_SUCCESS fs' ->
  0 <= obj_offset -> 0 <= obj_length ->
  obj_offset + obj_length <= Z.min SIZEOF_BUF (Z.of_nat (length bytes)) ->
  sizeof_its_obj_info_t + obj_offset + obj_length <= SIZEOF_BUF ->
  obj_length <= Z.of_nat (length out) ->
  storage_get sizeof_its_obj_info_t stack_buf fs' obj_uid
    obj_offset obj_length (Some out) =
    Returns PSA_SUCCESS
      (Some (take (Z.to_nat obj_length)
               (drop (Z.to_nat (sizeof_its_obj_info_t + obj_offset))
                  (take (Z.to_nat SIZEOF_BUF) bytes
                   ++ drop (length bytes) stack_buf))
             ++ drop (Z.to_nat obj_length) out)).
Proof.
  intros Hkeeps Hstack Hs Hset Ho Hl Hrec Hin Hout. unfold SIZEOF_BUF in *.
  set (len := Z.of_nat (length bytes)) in *.
  destruct (layer_set_cases fs obj_uid len (Some bytes))
    as [[? _] | [(src & _ & _ & Hret)
                | (src & rc & fs1 & [= <-] & _ & Hw & [[_ Hret] | [Hrc Hret]])]];
    try discriminate; try congruence.
  rewrite Hset in Hret. injection Hret as <-.
  pose proof (Hkeeps fs fs' obj_uid bytes len rc Hw ltac:(lia) ltac:(lia)
                stack_buf 128 ltac:(lia)) as Hread.
  assert (take (Z.to_nat (Z.min 128 len)) bytes
            ++ drop (Z.to_nat (Z.min 128 len)) stack_buf
          = take (Z.to_nat 128) bytes ++ drop (length bytes) stack_buf) as Hbuf.
  { destruct (Z_le_gt_dec len 128) as [Hle|Hgt].
    - rewrite Z.min_r by lia. unfold len. rewrite Nat2Z.id.
      rewrite !take_ge by lia. reflexivity.
    - rewrite Z.min_l by lia. f_equal.
      rewrite !drop_ge by lia. reflexivity. }
  rewrite Hbuf in Hread.
  rewrite (layer_get_in_bounds fs' obj_uid obj_offset obj_length out _ _ Hread);
    try reflexivity; unfold SIZEOF_BUF; try lia.
  rewrite <- Hbuf. rewrite length_app, length_take, length_drop. lia.
Qed.

End PersistentCopy.

Section PersistentCopyExamples.

(** A 128-byte record behind an 8-byte header: the window (0, 120)
    stays inside the buffer, the window (0, 121) does not. *)
Lemma persistent_get_copy_bounds_witness :
  Zfs.storage_get 8 (blank 128) log_block 10 0 120 (Some (blank 120)) =
    Returns PSA_SUCCESS (Some (replicate 120 Byte.x5a))
  /\ Zfs.storage_get 8 (blank 128) log_block 10 0 121 (Some (blank 121)) =
       OutOfBounds.
Proof.
  assert (Zfs.zms_read log_block 10 (blank 128) Zfs.SIZEOF_BUF =
            (128, replicate 128 Byte.x5a)) as Hread
    by (vm_compute; reflexivity).
  split.
  - apply (proj1 (persistent_get_copy_bounds 8 (blank 128) log_block
                    10 0 120 128 (blank 120) _ Hread eq_refl
                    ltac:(lia) ltac:(lia) ltac:(lia)
                    ltac:(unfold Zfs.SIZEOF_BUF; lia) ltac:(lia)
                    ltac:(simpl; lia))).
    unfold Zfs.SIZEOF_BUF. lia.
  - apply (proj2 (persistent_get_copy_bounds 8 (blank 128) log_block
                    10 0 121 128 (blank 121) _ Hread eq_refl
                    ltac:(lia) ltac:(lia) ltac:(lia)
                    ltac:(unfold Zfs.SIZEOF_BUF; lia) ltac:(lia)
                    ltac:(simpl; lia))).
    unfold Zfs.SIZEOF_BUF. lia.
Defined.

(** All ten bytes asked for after "0123456789" was stored, behind an
    8-byte header: "89", then eight bytes that were in the array. *)
Lemma persistent_get_after_set_window_witness :
  Zfs.storage_get 8 (blank 128) log_digits 10 0 10 (Some (blank 10)) =
    Returns PSA_SUCCESS (Some (bytes_of "89" ++ blank 8)).
Proof.
  apply (persistent_get_after_set_window 8 (blank 128) (RefLog.empty 4096)
           log_digits 10 0 10 digits (blank 10) reflog_keeps_records
           eq_refl ltac:(lia) reflog_set_digits ltac:(lia) ltac:(lia));
    unfold Zfs.SIZEOF_BUF; simpl; lia.
Defined.

End PersistentCopyExamples.

(** ** Deleting an item and checking that it is gone *)

Section DeleteAndVerify.

Import Zfs ZfsMaintenance.

Context {FS : Type} `{!ZmsDriver FS} `{!ZmsLength FS}.

(** X14. [delete_and_verify_items] leaves the file system [zms_delete]
    left. It returns 0 exactly when [zms_delete] returned 0 and the
    length query on the result reports no data. When it returns 0,
    [storage_remove] on the same file system returns [PSA_SUCCESS]
    and leaves the same result; and over a driver that reads nothing
    where the length query reports no data, a later [storage_get] of
    the item whose offset + length, added as [storage_get] adds them
    (in [uint32_t], modulo 2^32), is not 0 does not succeed: it returns
    [PSA_ERROR_INVALID_ARGUMENT] or [PSA_ERROR_IO_ERROR] and leaves the
    caller's buffer alone. Windows whose [uint32_t] sum is 0, the
    window (0, 0) and those that wrap to 0 such as (4294967295, 1), are
    not covered: there both checks pass on a read of 0 bytes. *)
Theorem delete_and_verify_items_zero (fs fs' : FS) (id rc : Z) :
  delete_and_verify_items fs id = (rc, fs') ->
  fs' = snd (zms_delete fs id)
  /\ (rc = 0 <->
      fst (zms_delete fs id) = 0 /\ zms_get_data_length fs' id <= 0)
  /\ (rc = 0 ->
      (forall obj_size,
         storage_remove fs id obj_size = Returns PSA_SUCCESS fs')
      /\ (reads_nothing_without_data ->
          forall sizeof_its_obj_info_t stack_buf obj_offset obj_length out,
            uint32_add obj_offset obj_length <> 0 ->
            exists st,
              storage_get sizeof_its_obj_info_t stack_buf fs' id
                obj_offset obj_length (Some out) = Returns st (Some out)
              /\ (st = PSA_ERROR_INVALID_ARGUMENT
                  \/ st = PSA_ERROR_IO_ERROR))).
Proof.
  unfold delete_and_verify_items. intros Hrun.
  destruct (zms_delete fs id) as [rc0 fs0] eqn:Hdel. simpl.
  destruct (rc0 =? 0) eqn:E0; simpl in Hrun.
  - apply Z.eqb_eq in E0. subst rc0.
    destruct (zms_get_data_length fs0 id >? 0) eqn:Elen;
      injection Hrun as <- <-.
    + apply gtb_true_inv in Elen.
      split; [reflexivity|]. split; [split; [discriminate | lia]|].
      discriminate.
    + apply gtb_false_inv in Elen.
      split; [reflexivity|]. split; [split; auto|].
      intros _. split.
      * intros obj_size. unfold storage_remove. rewrite Hdel. reflexivity.
      * intros Hnothing sizeof_its_obj_info_t stack_buf obj_offset
          obj_length out Hwin.
        unfold storage_get.
        destruct (window_too_large obj_offset obj_length); [eauto|].
        pose proof (Hnothing fs0 id stack_buf SIZEOF_BUF Elen) as Hrc.
        destruct (zms_read fs0 id stack_buf SIZEOF_BUF) as [rc buf].
        simpl in Hrc.
        destruct (rc <? 0); [eauto|].
        assert (0 <= uint32_add obj_offset obj_length) as Hnn.
        { unfold uint32_add, UINT32_MODULUS. apply Z.mod_pos_bound. lia. }
        rewrite (proj2 (Z.ltb_lt rc _)) by lia. eauto.
  - apply Z.eqb_neq in E0. injection Hrun as <- <-.
    split; [reflexivity|]. split; [split; [contradiction | tauto]|].
    contradiction.
Qed.

End DeleteAndVerify.

Section DeleteAndVerifyExample.

Lemma reflog_reads_nothing_without_data :
  @ZfsMaintenance.reads_nothing_without_data RefLog.log _ _.
Proof.
  intros fs id buf n Hlen. simpl in *. unfold RefLog.read.
  destruct (RefLog.records fs !! id) as [rec|]; simpl.
  - lia.
  - unfold RefLog.ENOENT. lia.
Qed.

(** The digits are deleted from the reference log and cannot be read
    any more. *)
Lemma delete_and_verify_items_zero_witness :
  ZfsMaintenance.delete_and_verify_items log_digits 10 =
    (0, RefLog.mk_log ∅ 4086)
  /\ exists st,
       Zfs.storage_get 8 (blank 128) (RefLog.mk_log ∅ 4086) 10 0 10
         (Some (blank 10)) = Returns st (Some (blank 10))
       /\ (st = PSA_ERROR_INVALID_ARGUMENT \/ st = PSA_ERROR_IO_ERROR).
Proof.
  assert (ZfsMaintenance.delete_and_verify_items log_digits 10 =
            (0, RefLog.mk_log ∅ 4086)) as Hrun by (vm_compute; reflexivity).
  split; [exact Hrun|].
  apply (proj2 (proj2 (proj2 (delete_and_verify_items_zero log_digits _ 10 0
           Hrun)) eq_refl) reflog_reads_nothing_without_data).
  vm_compute. discriminate.
Defined.

End DeleteAndVerifyExample.

(** ** Mounting the file system *)

Section Startup.

Import ZfsStartup.

Context `{!Board}.

(** X15. [storage_init] of the persistent backend returns 0 exactly
    when the flash device is ready, the page query at the partition
    offset returns 0 and [zms_mount] returns 0 on the file system it is
    given; that file system is the partition's device and offset with 4
    sectors of one flash page each, and it is what [fs] holds after a
    return of 0. A device that is not ready gives [-ENOSPC], with only
    the device of [fs] assigned and no other call made; every other
    failure gives [-EIO]. *)
Theorem storage_init_mounts_four_pages (fs0 : zms_fs) :
  let page := flash_get_page_info_by_offs ZMS_PARTITION_DEVICE
                ZMS_PARTITION_OFFSET in
  let mounted := mk_zms_fs ZMS_PARTITION_DEVICE ZMS_PARTITION_OFFSET
                   (snd page) 4 in
  (fst (storage_init fs0) = 0 <->
   device_is_ready ZMS_PARTITION_DEVICE = true /\ fst page = 0
   /\ zms_mount mounted = 0)
  /\ (fst (storage_init fs0) = 0 -> snd (storage_init fs0) = mounted)
  /\ (device_is_ready ZMS_PARTITION_DEVICE = false ->
      storage_init fs0 =
        (- ENOSPC, mk_zms_fs ZMS_PARTITION_DEVICE (offset fs0)
                     (sector_size fs0) (sector_count fs0)))
  /\ (device_is_ready ZMS_PARTITION_DEVICE = true ->
      fst (storage_init fs0) <> 0 -> fst (storage_init fs0) = - EIO).
Proof.
  intros page mounted. subst mounted page. unfold storage_init. simpl.
  destruct (device_is_ready ZMS_PARTITION_DEVICE) eqn:Hready; simpl.
  2: { unfold ENOSPC. intuition (try discriminate; try congruence). }
  destruct (flash_get_page_info_by_offs ZMS_PARTITION_DEVICE
              ZMS_PARTITION_OFFSET) as [rc size]. simpl.
  destruct (rc =? 0) eqn:E0; simpl.
  2: { apply Z.eqb_neq in E0. unfold EIO.
       intuition (try discriminate; try congruence). }
  apply Z.eqb_eq in E0. subst rc.
  destruct (zms_mount _ =? 0) eqn:Em; simpl.
  - apply Z.eqb_eq in Em. intuition (try discriminate; try congruence).
  - apply Z.eqb_neq in Em. unfold EIO.
    intuition (try discriminate; try congruence).
Qed.

End Startup.

Section StartupExample.

(** On the board that is ready, [storage_init] returns 0 and leaves
    4 sectors of 2048 bytes. *)
Lemma storage_init_mounts_four_pages_witness :
  @ZfsStartup.storage_init board_ready ZfsStartup.fs_unset =
    (0, ZfsStartup.mk_zms_fs 1 1032192 2048 4).
Proof.
  pose proof (@storage_init_mounts_four_pages board_ready ZfsStartup.fs_unset)
    as (Hiff & Hfs & _).
  assert (fst (@ZfsStartup.storage_init board_ready ZfsStartup.fs_unset) = 0)
    as Hzero.
  { apply Hiff. repeat split; reflexivity. }
  specialize (Hfs Hzero).
  destruct (@ZfsStartup.storage_init board_ready ZfsStartup.fs_unset)
    as [rc fs]. simpl in *. subst. reflexivity.
Defined.

End StartupExample.

(** ** The table behaves as a finite map *)

Section VolatileRefinement.

Import Volatile.

Implicit Types (tbl : storage_table_t) (e : storage_entry_t)
  (m : gmap Z (list byte)).

Lemma holds_stored tbl u bytes : holds tbl u bytes -> stored tbl u.
Proof. intros (i & e & Hi & Hu & Hid & _). exists i, e. auto. Qed.

Lemma holds_insert_other tbl i e e' v bytes :
  tbl !! i = Some e -> ~ entry_matches v e -> ~ entry_matches v e' ->
  holds (<[i := e']> tbl) v bytes <-> holds tbl v bytes.
Proof.
  intros Hi He He'. rewrite entry_matches_iff in He, He'. split.
  - intros (j & y & Hj & Hu & Hid & Hp).
    apply list_lookup_insert_Some in Hj as [(_ & <- & _) | (_ & Hj)];
      [tauto|]. exists j, y. auto.
  - intros (j & y & Hj & Hu & Hid & Hp). exists j, y.
    rewrite list_lookup_insert_ne; [auto|]. intros ->.
    assert (y = e) as -> by congruence. tauto.
Qed.

Lemma set_slot_old_entry tbl u i e :
  set_slot tbl u = Some (Z.of_nat i) -> tbl !! i = Some e ->
  (used e = true /\ uid e = u) \/ used e = false.
Proof.
  intros Hslot Hi.
  destruct (set_slot_cases tbl u)
    as [(Hnone & _) | (k & y & Hk & Hky & Hwhy & _)]; [congruence|].
  assert (k = i) as -> by (apply Nat2Z.inj; congruence).
  assert (y = e) as -> by congruence.
  destruct Hwhy as [? | [? _]]; auto.
Qed.

Lemma represents_empty : represents storage_init ∅.
Proof.
  intros u bytes. rewrite lookup_empty. split; [discriminate|].
  intros Hh. apply holds_stored in Hh. exfalso.
  exact (storage_init_empty u Hh).
Qed.

(** X16. Volatile Table Store: a table that satisfies the invariant
    and lists the objects of a finite map [m] behaves as [m] under the
    four operations. A successful [storage_set(uid, len, src)] leaves a
    table for [m] with [uid] bound to the first [len] bytes of [src]; a
    successful [storage_remove(uid)] leaves a table for [m] without
    [uid]; [storage_get] returns [PSA_ERROR_DOES_NOT_EXIST] when [m]
    has no [uid], and otherwise reads the window from the object [m]
    binds to it, refusing an offset above its length;
    [storage_get_info] likewise hands out the first bytes of that
    object and refuses a size above its length. The initial table
    lists the empty map. *)
Theorem volatile_table_refines_map
    (tbl : storage_table_t) (m : gmap Z (list byte)) (obj_uid : Z) :
  table_inv tbl -> represents tbl m ->
  represents storage_init ∅
  /\ (forall obj_length src tbl',
        storage_set tbl obj_uid obj_length (Some src) =
          Returns PSA_SUCCESS tbl' ->
        represents tbl' (<[obj_uid := take (Z.to_nat obj_length) src]> m))
  /\ (forall obj_size tbl',
        storage_remove tbl obj_uid obj_size = Returns PSA_SUCCESS tbl' ->
        represents tbl' (delete obj_uid m))
  /\ (forall obj_offset obj_length out,
        0 <= obj_offset -> 0 <= obj_length ->
        match m !! obj_uid with
        | None =>
          storage_get tbl obj_uid obj_offset obj_length (Some out) =
            Returns PSA_ERROR_DOES_NOT_EXIST (Some out)
        | Some obj =>
          (Z.of_nat (length obj) < obj_offset ->
           storage_get tbl obj_uid obj_offset obj_length (Some out) =
             Returns PSA_ERROR_INVALID_ARGUMENT (Some out))
          /\ (obj_offset <= Z.of_nat (length obj) ->
              Z.min obj_length (Z.of_nat (length obj) - obj_offset)
                <= Z.of_nat (length out) ->
              storage_get tbl obj_uid obj_offset obj_length (Some out) =
                Returns PSA_SUCCESS
                  (Some (take (Z.to_nat (Z.min obj_length
                                  (Z.of_nat (length obj) - obj_offset)))
                           (drop (Z.to_nat obj_offset) obj)
                         ++ drop (Z.to_nat (Z.min obj_length
                                    (Z.of_nat (length obj) - obj_offset)))
                              out)))
        end)
  /\ (forall obj_info_size info,
        match m !! obj_uid with
        | None =>
          storage_get_info tbl obj_uid (Some info) obj_info_size =
            Returns PSA_ERROR_DOES_NOT_EXIST (Some info)
        | Some obj =>
          (Z.of_nat (length obj) < obj_info_size ->
           storage_get_info tbl obj_uid (Some info) obj_info_size =
             Returns PSA_ERROR_INVALID_ARGUMENT (Some info))
          /\ (0 <= obj_info_size <= Z.of_nat (length obj) ->
              obj_info_size <= Z.of_nat (length info) ->
              storage_get_info tbl obj_uid (Some info) obj_info_size =
                Returns PSA_SUCCESS
                  (Some (take (Z.to_nat obj_info_size) obj
                         ++ drop (Z.to_nat obj_info_size) info)))
        end).
Proof.
  intros Hinv Hrep. split; [exact represents_empty|]. split; [|split; [|split]].
  - intros obj_length src tbl' Hset.
    pose proof (table_inv_storage_set _ _ _ _ _ _ Hinv Hset) as Hinv'.
    apply storage_set_success in Hset
      as (src0 & i & e & [= <-] & Hslot & Hi & Hlen & Hsrc & ->);
      [|exact Hinv].
    assert (i < length tbl)%nat as Hlt by (eapply lookup_lt_Some; eauto).
    set (e' := mk_entry true obj_uid obj_length (slot_image src obj_length))
      in *.
    assert (payload e' = take (Z.to_nat obj_length) src) as Hpay.
    { unfold payload, e'. simpl. apply slot_image_take; lia. }
    intros v bytes. destruct (decide (v = obj_uid)) as [->|Hne].
    + rewrite lookup_insert_eq. split.
      * intros [= <-]. exists i, e'.
        rewrite list_lookup_insert_eq by exact Hlt. auto.
      * intros (j & y & Hj & Hu & Hid & Hp).
        assert (j = i) as ->.
        { apply (inv_unique _ Hinv' j i y e'); auto.
          apply list_lookup_insert_eq. exact Hlt. }
        rewrite list_lookup_insert_eq in Hj by exact Hlt.
        injection Hj as <-. congruence.
    + rewrite lookup_insert_ne by congruence. rewrite (Hrep v bytes).
      symmetry. apply (holds_insert_other tbl i e e' v bytes Hi).
      * rewrite entry_matches_iff. intros [Hu Hid].
        destruct (set_slot_old_entry tbl obj_uid i e Hslot Hi)
          as [[_ ?] | ?]; congruence.
      * rewrite entry_matches_iff. simpl. intros [_ ?]. congruence.
  - intros obj_size tbl' Hrm.
    apply storage_remove_inv in Hrm
      as [(? & _) | (_ & i & e & Hi & Hu & Hid & ->)]; [discriminate|].
    intros v bytes. destruct (decide (v = obj_uid)) as [->|Hne].
    + rewrite lookup_delete_eq. split; [discriminate|].
      intros Hh. apply holds_stored in Hh. exfalso.
      exact (removed_not_stored tbl obj_uid i e Hinv Hi Hu Hid Hh).
    + rewrite lookup_delete_ne by congruence. rewrite (Hrep v bytes).
      symmetry. apply (holds_insert_other tbl i e cleared_entry v bytes Hi).
      * rewrite entry_matches_iff. intros [_ ?]. congruence.
      * rewrite entry_matches_iff. simpl. intros [? _]. discriminate.
  - intros obj_offset obj_length out Hoff Hlen.
    destruct (m !! obj_uid) as [obj|] eqn:Hm.
    + apply Hrep in Hm as (i & e & Hi & Hu & Hid & Hp).
      pose proof (inv_data tbl Hinv i e Hi) as Hdata.
      pose proof (inv_size tbl Hinv i e Hi) as Hsize.
      assert (Z.of_nat (length obj) = size e) as Hobj.
      { rewrite <- Hp. unfold payload. rewrite length_take. lia. }
      rewrite Hobj. split.
      * intros Hbeyond. eapply storage_get_beyond; eauto.
      * intros Hin Hout. rewrite <- Hp.
        rewrite take_drop_payload by lia.
        eapply storage_get_within; eauto.
    + apply storage_get_absent. intros (i & e & Hi & Hu & Hid).
      assert (m !! obj_uid = Some (payload e)) as Habs.
      { apply Hrep. exists i, e. auto. }
      congruence.
  - intros obj_info_size info.
    destruct (m !! obj_uid) as [obj|] eqn:Hm.
    + apply Hrep in Hm as (i & e & Hi & Hu & Hid & Hp).
      pose proof (inv_data tbl Hinv i e Hi) as Hdata.
      pose proof (inv_size tbl Hinv i e Hi) as Hsize.
      assert (Z.of_nat (length obj) = size e) as Hobj.
      { rewrite <- Hp. unfold payload. rewrite length_take. lia. }
      rewrite Hobj. split.
      * intros Hbeyond. eapply storage_get_info_beyond; eauto.
      * intros Hin Hinfo.
        rewrite (storage_get_info_within tbl obj_uid i e info obj_info_size);
          auto.
        do 3 f_equal. rewrite <- Hp. unfold payload.
        rewrite take_take. f_equal. lia.
    + apply storage_get_info_absent. intros (i & e & Hi & Hu & Hid).
      assert (m !! obj_uid = Some (payload e)) as Habs.
      { apply Hrep. exists i, e. auto. }
      congruence.
Qed.

(** The table that holds "0123456789" under 0xA lists the map with
    that one binding, and reads from it. *)
Lemma volatile_table_refines_map_witness :
  represents table_digits {[10 := digits]}
  /\ storage_get table_digits 10 3 4 (Some (blank 4)) =
       Returns PSA_SUCCESS (Some (bytes_of "3456")).
Proof.
  assert (represents table_digits {[10 := digits]}) as Hrep.
  { change ({[10 := digits]} : gmap Z (list byte))
      with (<[10 := take (Z.to_nat 10) digits]> (∅ : gmap Z (list byte))).
    exact (proj1 (proj2 (volatile_table_refines_map storage_init ∅ 10
                           storage_init_inv represents_empty))
             10 digits table_digits table_digits_set). }
  split; [exact Hrep|].
  pose proof (proj1 (proj2 (proj2 (proj2 (volatile_table_refines_map
                table_digits {[10 := digits]} 10 table_digits_inv Hrep))))
                3 4 (blank 4) ltac:(lia) ltac:(lia)) as Hget.
  rewrite lookup_singleton_eq in Hget.
  apply (proj2 Hget); simpl; lia.
Defined.

End VolatileRefinement.
